(** * SpotifySort: library aggregation, classification and playlist building

    A shallow embedding of [spotifysort/library_analyzer.py],
    [spotifysort/playlist_manager.py] and the genre discovery handler of
    [spotifysort/web/app.py].

    - Python dictionaries keep insertion order, so every dictionary that is
      iterated is an association list ([dict]); dictionaries that are only
      looked up are [gmap]s, sets are [gset]s.
    - The Spotify client [self.sp] is a record of response functions.  Calls
      that write are recorded, with their outcome, in an event trace that is
      threaded through the code; a response may depend on the whole trace.
    - A Python exception is the [Raised] outcome; [try]/[except] is a match.
    - Audio features are Python floats that are only compared with literal
      thresholds; they are rationals here.
    - Strings are byte strings; [lower], [title] and [strip] change the
      ASCII letters and ASCII white space only (see [Py]). *)

From Stdlib Require Import ZArith String Ascii DecimalString QArith Lia Sorted.
From stdpp Require Import gmap strings list.

(** ** Python built-ins used by the source *)

Module Py.

(** [bool(x)] for an [int] or [None]. *)
Definition truthy_int (x : option Z) : bool :=
  match x with
  | Some v => negb (v =? 0)%Z
  | None => false
  end.

(** [bool(x)] for a [str] or [None]. *)
Definition truthy_str (x : option string) : bool :=
  match x with
  | Some s => negb (String.eqb s "")
  | None => false
  end.

(** [bool(l)] for a list. *)
Definition truthy_list {A} (l : list A) : bool :=
  match l with
  | [] => false
  | _ :: _ => true
  end.

Definition is_upper (c : ascii) : bool :=
  (65 <=? nat_of_ascii c) && (nat_of_ascii c <=? 90).

Definition is_lower (c : ascii) : bool :=
  (97 <=? nat_of_ascii c) && (nat_of_ascii c <=? 122).

Definition lower_char (c : ascii) : ascii :=
  if is_upper c then ascii_of_nat (nat_of_ascii c + 32) else c.

Definition upper_char (c : ascii) : ascii :=
  if is_lower c then ascii_of_nat (nat_of_ascii c - 32) else c.

(** [s.lower()] on byte strings: the letters [A]..[Z] are lowered and
    every other byte, those above 127 included, is left as it is.  It is
    [str.lower()] on strings of ASCII characters; Python also lowers the
    letters outside ASCII, which this definition leaves unchanged. *)
Fixpoint lower (s : string) : string :=
  match s with
  | EmptyString => EmptyString
  | String c s' => String (lower_char c) (lower s')
  end.

(** [s.title()] on byte strings: a cased character that follows an
    uncased one is put in upper case, every other cased character in lower
    case, where the cased characters are the letters [A]..[Z] and [a]..[z].
    It is [str.title()] on strings of ASCII characters; Python counts the
    letters outside ASCII as cased too, and this definition does not, so
    the two differ on a name such as one with an accented letter inside a
    word.  The titled genre only enters the text of a playlist name. *)
Fixpoint title_from (prev_cased : bool) (s : string) : string :=
  match s with
  | EmptyString => EmptyString
  | String c s' =>
      if is_lower c then
        String (if prev_cased then c else upper_char c) (title_from true s')
      else if is_upper c then
        String (if prev_cased then lower_char c else c) (title_from true s')
      else String c (title_from false s')
  end.

Definition title (s : string) : string := title_from false s.

(** [c.isspace()] on the ASCII characters: tab to carriage return, the
    four separators 28..31 and the space.  Python's [isspace] also holds of
    white space outside ASCII, which is not white space here. *)
Definition is_space (c : ascii) : bool :=
  let n := nat_of_ascii c in
  ((9 <=? n) && (n <=? 13)) || ((28 <=? n) && (n <=? 32)).

Fixpoint lstrip (s : string) : string :=
  match s with
  | EmptyString => EmptyString
  | String c s' => if is_space c then lstrip s' else s
  end.

Fixpoint rstrip (s : string) : string :=
  match s with
  | EmptyString => EmptyString
  | String c s' =>
      match rstrip s' with
      | EmptyString => if is_space c then EmptyString else String c EmptyString
      | r => String c r
      end
  end.

(** [s.strip()], removing the leading and trailing ASCII white space. *)
Definition strip (s : string) : string := rstrip (lstrip s).

(** [sub in s] for strings. *)
Fixpoint contains (sub s : string) : bool :=
  String.prefix sub s ||
  match s with
  | EmptyString => false
  | String _ s' => contains sub s'
  end.

(** [x in l] for a list of strings. *)
Definition str_in (x : string) (l : list string) : bool :=
  existsb (String.eqb x) l.

(** [str(n)] for an [int]. *)
Definition str_of_int (n : Z) : string := NilEmpty.string_of_int (Z.to_int n).

(** [str(len(l))]. *)
Definition str_of_len {A} (l : list A) : string :=
  NilEmpty.string_of_uint (Nat.to_uint (length l)).

(** [range(0, n, step)]. *)
Definition range_step (n step : nat) : list nat :=
  (fun k => k * step) <$> seq 0 ((n + step - 1) / step).

(** [l[i:i + size]]. *)
Definition slice {A} (l : list A) (i size : nat) : list A :=
  take size (drop i l).

(** [l[:n]], also for a negative [n]. *)
Definition slice_to {A} (l : list A) (n : Z) : list A :=
  if (n <? 0)%Z then take (length l - Z.to_nat (- n)) l
  else take (Z.to_nat n) l.

(** A dictionary in insertion order. *)
Definition dict (K V : Type) : Type := list (K * V).

(** [d.get(k)] *)
Fixpoint dict_get `{EqDecision K} {V} (k : K) (d : dict K V) : option V :=
  match d with
  | [] => None
  | (k', v) :: d' => if decide (k = k') then Some v else dict_get k d'
  end.

(** [d[k] = v]: an existing key keeps its place. *)
Fixpoint dict_set `{EqDecision K} {V} (k : K) (v : V) (d : dict K V)
  : dict K V :=
  match d with
  | [] => [(k, v)]
  | (k', v') :: d' =>
      if decide (k = k') then (k, v) :: d' else (k', v') :: dict_set k v d'
  end.

(** [d[k].append(x)] on a [defaultdict(list)], and the idiom
    [if k not in d: d[k] = []] followed by [d[k].append(x)]. *)
Fixpoint dict_append `{EqDecision K} {V} (k : K) (x : V)
  (d : dict K (list V)) : dict K (list V) :=
  match d with
  | [] => [(k, [x])]
  | (k', l) :: d' =>
      if decide (k = k') then (k, l ++ [x]) :: d'
      else (k', l) :: dict_append k x d'
  end.

Definition keys {K V} (d : dict K V) : list K := fst <$> d.

(** First-seen order: every element whose key did not occur before it, in
    the order of the list. *)
Fixpoint first_by {A K} `{EqDecision K} (key : A -> K) (l : list A)
  : list A :=
  match l with
  | [] => []
  | x :: rest => x :: filter (fun y => key y <> key x) (first_by key rest)
  end.

End Py.

(** ** Data model: the dictionaries built by [_extract_track_info] *)

Record artist_ref := ArtistRef {
  artist_id : string;
  artist_name : string
}.

Record track := Track {
  track_id : string;
  track_name : string;
  artists : list artist_ref;
  uri : option string;
  release_year : option Z
}.

#[global] Instance artist_ref_eq_dec : EqDecision artist_ref.
Proof. solve_decision. Defined.

#[global] Instance track_eq_dec : EqDecision track.
Proof. solve_decision. Defined.

(** One element of the list returned by [sp.audio_features]. *)
Record features := Features {
  feat_id : string;
  valence : Q;
  energy : Q;
  danceability : Q;
  acousticness : Q;
  tempo : Q
}.

(** The outcome of a call that may raise. *)
Inductive outcome (A : Type) : Type :=
| Returned (a : A)
| Raised.
Arguments Returned {A} a.
Arguments Raised {A}.

(** ** [playlist_manager.py] *)

Module PlaylistManager.
Import Py.

(** A write call issued to the Spotify client, with its outcome. *)
Inductive event : Type :=
| EvCreate (name description : string) (public : bool)
           (result : option string)
| EvAdd (playlist_id : string) (batch : list string) (ok : bool).

(** The calls issued so far, oldest first. *)
Definition trace : Type := list event.

(** [self.sp]: [user_playlist_create] returns the new playlist's id or
    raises ([None]); [playlist_add_items] returns or raises ([false]).
    Both may depend on everything that happened before. *)
Record client := Client {
  user_playlist_create : trace -> string -> string -> bool -> option string;
  playlist_add_items : trace -> string -> list string -> bool
}.

(** [create_playlist]: the exception is logged and raised again; the
    [user] argument is always [self.user_id] and is left out. *)
Definition create_playlist (sp : client) (name description : string)
  (public : bool) (tr : trace) : outcome string * trace :=
  let result := user_playlist_create sp tr name description public in
  let tr' := tr ++ [EvCreate name description public result] in
  match result with
  | Some playlist_id => (Returned playlist_id, tr')
  | None => (Raised, tr')
  end.

(** The [for] loop of [add_tracks_to_playlist], left by the first call
    that raises. *)
Fixpoint add_batches (sp : client) (playlist_id : string)
  (batches : list (list string)) (tr : trace) : outcome unit * trace :=
  match batches with
  | [] => (Returned (), tr)
  | batch :: rest =>
      let ok := playlist_add_items sp tr playlist_id batch in
      let tr' := tr ++ [EvAdd playlist_id batch ok] in
      if ok then add_batches sp playlist_id rest tr' else (Raised, tr')
  end.

Definition batch_size : nat := 100.

(** The batches [track_uris[i:i + batch_size]] for [i] in
    [range(0, len(track_uris), batch_size)]. *)
Definition batches_of (track_uris : list string) : list (list string) :=
  (fun i => slice track_uris i batch_size)
    <$> range_step (length track_uris) batch_size.

Definition add_tracks_to_playlist (sp : client) (playlist_id : string)
  (track_uris : list string) (tr : trace) : bool * trace :=
  if negb (truthy_list track_uris) then (false, tr)
  else
    match add_batches sp playlist_id (batches_of track_uris) tr with
    | (Returned _, tr') => (true, tr')
    | (Raised, tr') => (false, tr')
    end.

(** [[t['uri'] for t in tracks if t.get('uri')]] *)
Definition writable_uris (tracks : list track) : list string :=
  omap (fun t => if truthy_str (uri t) then uri t else None) tracks.

(** The body of the [try] block shared by the [create_*_playlists]
    methods: create the playlist, add the tracks (the result of
    [add_tracks_to_playlist] is dropped), hand back the id. *)
Definition create_and_fill (sp : client) (name description : string)
  (public : bool) (tracks : list track) (tr : trace)
  : outcome string * trace :=
  match create_playlist sp name description public tr with
  | (Returned playlist_id, tr1) =>
      let '(_, tr2) :=
        add_tracks_to_playlist sp playlist_id (writable_uris tracks) tr1 in
      (Returned playlist_id, tr2)
  | (Raised, tr1) => (Raised, tr1)
  end.

Section Loop.
Context {K : Type} `{EqDecision K}.
(** What differs between the methods: the [continue] guard, the playlist
    name and the description. *)
Variable skip : K -> list track -> bool.
Variable playlist_name : K -> list track -> string.
Variable description : K -> list track -> string.

(** [for key, tracks in bucket_map.items(): ...] with
    [created_playlists] as accumulator; [except] logs and goes on. *)
Fixpoint create_loop (sp : client) (public : bool)
  (items : dict K (list track)) (created_playlists : dict K string)
  (tr : trace) : dict K string * trace :=
  match items with
  | [] => (created_playlists, tr)
  | (key, tracks) :: rest =>
      if skip key tracks then
        create_loop sp public rest created_playlists tr
      else
        match create_and_fill sp (playlist_name key tracks)
                (description key tracks) public tracks tr with
        | (Returned playlist_id, tr') =>
            create_loop sp public rest
              (dict_set key playlist_id created_playlists) tr'
        | (Raised, tr') =>
            create_loop sp public rest created_playlists tr'
        end
  end.
End Loop.

(** [f"{prefix} - {genre.title()}"] and the description of a genre playlist. *)
Definition genre_playlist_name (prefix genre : string) : string :=
  prefix +:+ " - " +:+ title genre.

Definition genre_description (genre : string) (tracks : list track) : string :=
  "Auto-generated playlist containing " +:+ str_of_len tracks
    +:+ " " +:+ genre +:+ " tracks".

Definition create_genre_playlists (sp : client)
  (genre_map : dict string (list track)) (prefix : string) (public : bool)
  (tr : trace) : dict string string * trace :=
  create_loop
    (fun _ tracks => negb (truthy_list tracks))
    (fun genre _ => genre_playlist_name prefix genre)
    genre_description
    sp public genre_map [] tr.

Definition artist_playlist_name (prefix artist : string) : string :=
  prefix +:+ " - " +:+ artist.

Definition artist_description (artist : string) (tracks : list track)
  : string :=
  "Collection of " +:+ str_of_len tracks +:+ " tracks by " +:+ artist.

(** [len(v) >= min_tracks] *)
Definition enough_tracks (min_tracks : Z) (kv : string * list track) : bool :=
  (min_tracks <=? Z.of_nat (length kv.2))%Z.

(** [min_tracks] defaults to 5. *)
Definition create_artist_playlists (sp : client)
  (artist_map : dict string (list track)) (prefix : string) (public : bool)
  (min_tracks : Z) (tr : trace) : dict string string * trace :=
  let filtered_artists := List.filter (enough_tracks min_tracks) artist_map in
  create_loop
    (fun _ _ => false)
    (fun artist _ => artist_playlist_name prefix artist)
    artist_description
    sp public filtered_artists [] tr.

(** A key of the map built by [analyze_library_by_year]: a year, a string
    or [None]. *)
Inductive year_key : Type :=
| YearInt (y : Z)
| YearStr (s : string)
| YearNone.

#[global] Instance year_key_eq_dec : EqDecision year_key.
Proof. solve_decision. Defined.

Definition str_of_year (year : year_key) : string :=
  match year with
  | YearInt y => str_of_int y
  | YearStr s => s
  | YearNone => "None"
  end.

Definition year_playlist_name (prefix : string) (year : year_key) : string :=
  if String.length (str_of_year year) =? 3
  then prefix +:+ " - " +:+ str_of_year year +:+ "s Music"
  else prefix +:+ " - " +:+ str_of_year year.

Definition year_description (year : year_key) (tracks : list track)
  : string :=
  "Music from " +:+ str_of_year year +:+ " - " +:+ str_of_len tracks
    +:+ " tracks".

(** [not tracks or year == 'Unknown'] *)
Definition year_skip (year : year_key) (tracks : list track) : bool :=
  negb (truthy_list tracks) || bool_decide (year = YearStr "Unknown").

Definition create_year_playlists (sp : client)
  (year_map : dict year_key (list track)) (prefix : string) (public : bool)
  (tr : trace) : dict year_key string * trace :=
  create_loop year_skip
    (fun year _ => year_playlist_name prefix year)
    year_description
    sp public year_map [] tr.

Definition mood_descriptions : dict string string :=
  [("Happy", "Upbeat and positive vibes");
   ("Sad", "Melancholic and emotional tracks");
   ("Energetic", "High energy and fast-paced music");
   ("Calm", "Relaxing and peaceful tunes");
   ("Party", "Perfect for parties and dancing");
   ("Chill", "Laid-back and acoustic vibes")].

Definition mood_playlist_name (prefix mood : string) : string :=
  prefix +:+ " - " +:+ mood.

Definition mood_description (mood : string) (tracks : list track) : string :=
  default "" (dict_get mood mood_descriptions) +:+ " - "
    +:+ str_of_len tracks +:+ " tracks".

Definition create_mood_playlists (sp : client)
  (mood_map : dict string (list track)) (prefix : string) (public : bool)
  (tr : trace) : dict string string * trace :=
  create_loop
    (fun _ tracks => negb (truthy_list tracks))
    (fun mood _ => mood_playlist_name prefix mood)
    mood_description
    sp public mood_map [] tr.

(** [(year // 10) * 10] for a track whose [release_year] is truthy; [//]
    is floor division, as [Z.div] is for a positive divisor. *)
Definition decade_of (t : track) : option Z :=
  match release_year t with
  | Some year =>
      if truthy_int (Some year) then Some (year / 10 * 10)%Z else None
  | None => None
  end.

(** The grouping loop of [create_decade_playlists]. *)
Fixpoint group_by_decade (tracks : list track)
  (decade_map : dict Z (list track)) : dict Z (list track) :=
  match tracks with
  | [] => decade_map
  | t :: rest =>
      match decade_of t with
      | Some decade =>
          group_by_decade rest (dict_append decade t decade_map)
      | None => group_by_decade rest decade_map
      end
  end.

Definition decade_playlist_name (prefix : string) (decade : Z) : string :=
  prefix +:+ " - " +:+ str_of_int decade +:+ "s".

Definition decade_description (decade : Z) (decade_tracks : list track)
  : string :=
  "Music from the " +:+ str_of_int decade +:+ "s - "
    +:+ str_of_len decade_tracks +:+ " tracks".

Definition create_decade_playlists (sp : client) (tracks : list track)
  (prefix : string) (public : bool) (tr : trace)
  : dict Z string * trace :=
  let decade_map := group_by_decade tracks [] in
  create_loop
    (fun _ _ => false)
    (fun decade _ => decade_playlist_name prefix decade)
    decade_description
    sp public decade_map [] tr.

(** Returns the playlist id, or [None]. *)
Definition create_custom_playlist (sp : client) (name : string)
  (tracks : list track) (description : string) (public : bool)
  (tr : trace) : option string * trace :=
  match create_playlist sp name description public tr with
  | (Returned playlist_id, tr1) =>
      let track_uris := writable_uris tracks in
      if truthy_list track_uris then
        let '(_, tr2) :=
          add_tracks_to_playlist sp playlist_id track_uris tr1 in
        (Some playlist_id, tr2)
      else (None, tr1)
  | (Raised, tr1) => (None, tr1)
  end.

(** Reading a trace. *)
Definition creations (tr : trace) : list (string * option string) :=
  omap (fun e => match e with
                 | EvCreate name _ _ result => Some (name, result)
                 | EvAdd _ _ _ => None
                 end) tr.

Definition writes (tr : trace) : list (string * list string * bool) :=
  omap (fun e => match e with
                 | EvAdd playlist_id batch ok => Some (playlist_id, batch, ok)
                 | EvCreate _ _ _ _ => None
                 end) tr.

(** The URIs a playlist holds after the calls of a trace: those of the
    write calls that returned. *)
Definition playlist_content (playlist_id : string) (tr : trace)
  : list string :=
  concat (omap (fun e => match e with
                         | EvAdd p batch true =>
                             if String.eqb p playlist_id then Some batch
                             else None
                         | _ => None
                         end) tr).

(** The trace after the first [k] of the given batches were written. *)
Definition written (playlist_id : string) (batches : list (list string))
  (k : nat) (tr : trace) : trace :=
  tr ++ ((fun batch => EvAdd playlist_id batch true) <$> take k batches).

(** The buckets a loop does not skip. *)
Definition attempted {K} (skip : K -> list track -> bool)
  (items : dict K (list track)) : dict K (list track) :=
  List.filter (fun kv => negb (skip kv.1 kv.2)) items.

(** Name and description of the playlist creations of a trace, and their
    results. *)
Definition creation_calls (tr : trace) : list (string * string) :=
  omap (fun e => match e with
                 | EvCreate name description _ _ => Some (name, description)
                 | EvAdd _ _ _ => None
                 end) tr.

Definition creation_results (tr : trace) : list (option string) :=
  omap (fun e => match e with
                 | EvCreate _ _ _ result => Some result
                 | EvAdd _ _ _ => None
                 end) tr.

(** The buckets whose creation returned, paired with the new id. *)
Definition successes {K} (buckets : dict K (list track))
  (results : list (option string)) : dict K string :=
  omap (fun kr : (K * list track) * option string =>
          (fun playlist_id => (kr.1.1, playlist_id)) <$> kr.2)
    (zip buckets results).

(** Events that are all write calls. *)
Definition only_writes (evs : trace) : Prop :=
  creation_calls evs = [] /\ creation_results evs = [].


End PlaylistManager.

(** ** [library_analyzer.py] *)

Module LibraryAnalyzer.
Import Py.

(** One page of a paged collection: [results['items']] and whether
    [results['next']] is set. *)
Record page (A : Type) := Page {
  items : list A;
  next : bool
}.
Arguments Page {A} items next.
Arguments items {A} p.
Arguments next {A} p.

(** [self.sp], as far as the analyzer reads from it.
    - [saved_pages]: the responses of [current_user_saved_tracks] at the
      offsets 0, 50, 100, ... in turn; a saved-track item always carries
      its track, and past the last listed response the service answers
      with a page without items.
    - [playlist_pages id]: the response of [playlist_tracks(id)], then
      those of the successive [next] calls, which return [None] once the
      list is used up; an item's track may be [None].
    - [artist id]: the genres of [sp.artist(id)].
    - [audio_features ids]: one entry per id, [None] where unresolved. *)
Record client := Client {
  saved_pages : list (outcome (page track));
  playlist_pages : string -> list (outcome (page (option track)));
  artist : string -> outcome (list string);
  audio_features : list string -> list (option features)
}.

(** [limit and len(tracks) >= limit] *)
Definition limit_reached (limit : option Z) (tracks : list track) : bool :=
  match limit with
  | Some l => truthy_int limit && (l <=? Z.of_nat (length tracks))%Z
  | None => false
  end.

(** The [for item in results['items']] loop of [get_saved_tracks], with
    its [break]. *)
Fixpoint append_items (limit : option Z) (tracks page_items : list track)
  : list track :=
  match page_items with
  | [] => tracks
  | item :: rest =>
      let tracks' := tracks ++ [item] in
      if limit_reached limit tracks' then tracks'
      else append_items limit tracks' rest
  end.

(** The [while True] loop of [get_saved_tracks]; [calls] counts the page
    fetches. *)
Fixpoint saved_tracks_loop (limit : option Z)
  (responses : list (outcome (page track))) (tracks : list track)
  (calls : nat) : outcome (list track) * nat :=
  match responses with
  | [] => (Returned tracks, S calls)
  | Raised :: _ => (Raised, S calls)
  | Returned results :: later =>
      if negb (truthy_list (items results)) then (Returned tracks, S calls)
      else
        let tracks' := append_items limit tracks (items results) in
        if negb (next results) || limit_reached limit tracks'
        then (Returned tracks', S calls)
        else saved_tracks_loop limit later tracks' (S calls)
  end.

(** [get_saved_tracks(limit)]: the tracks, and the number of page fetches
    issued. *)
Definition get_saved_tracks (sp : client) (limit : option Z)
  : outcome (list track) * nat :=
  match saved_tracks_loop limit (saved_pages sp) [] 0 with
  | (Returned tracks, calls) =>
      (Returned (match limit with
                 | Some l => if truthy_int limit then slice_to tracks l
                             else tracks
                 | None => tracks
                 end), calls)
  | (Raised, calls) => (Raised, calls)
  end.

(** [get_audio_features] *)
Definition get_audio_features (sp : client) (track_ids : list string)
  : list features :=
  if negb (truthy_list track_ids) then []
  else
    let batch_size := 100 in
    concat ((fun i => omap (fun f => f)
                        (audio_features sp (slice track_ids i batch_size)))
              <$> range_step (length track_ids) batch_size).

(** [for genre in genres: genre_map[genre].append(track)] *)
Definition append_to_genres (t : track) (genres : list string)
  (genre_map : dict string (list track)) : dict string (list track) :=
  foldl (fun m genre => dict_append genre t m) genre_map genres.

(** The loop of [analyze_library_by_genre]; [lookups] lists the artist
    ids passed to [sp.artist], in call order.  [track['artists'][0]] is
    outside the [try]: a track without artists raises. *)
Fixpoint genre_loop (sp : client) (tracks : list track)
  (genre_map : dict string (list track)) (lookups : list string)
  : outcome (dict string (list track)) * list string :=
  match tracks with
  | [] => (Returned genre_map, lookups)
  | t :: rest =>
      match artists t with
      | [] => (Raised, lookups)
      | primary :: _ =>
          let artist_id := artist_id primary in
          match artist sp artist_id with
          | Returned genres =>
              let genres :=
                if negb (truthy_list genres) then ["Unknown"] else genres in
              genre_loop sp rest (append_to_genres t genres genre_map)
                (lookups ++ [artist_id])
          | Raised =>
              genre_loop sp rest (dict_append "Unknown" t genre_map)
                (lookups ++ [artist_id])
          end
      end
  end.

Definition analyze_library_by_genre (sp : client) (tracks : list track)
  : outcome (dict string (list track)) * list string :=
  genre_loop sp tracks [] [].

(** The loop of [analyze_library_by_artist]. *)
Fixpoint artist_loop (tracks : list track)
  (artist_map : dict string (list track))
  : outcome (dict string (list track)) :=
  match tracks with
  | [] => Returned artist_map
  | t :: rest =>
      match artists t with
      | [] => Raised
      | primary :: _ =>
          artist_loop rest (dict_append (artist_name primary) t artist_map)
      end
  end.

Definition analyze_library_by_artist (tracks : list track)
  : outcome (dict string (list track)) :=
  artist_loop tracks [].

(** [{f['id']: f for f in features if f}]: a later entry replaces an
    earlier one with the same id. *)
Definition feature_dict_of (all_features : list features)
  : gmap string features :=
  foldl (fun m f => <[feat_id f := f]> m) ∅ all_features.

(** Comparison of a feature with a literal. *)
Definition gt (x y : Q) : bool := negb (Qle_bool x y).
Definition lt (x y : Q) : bool := negb (Qle_bool y x).

(** [if cond: mood_map[mood].append(track)] *)
Definition append_if (cond : bool) (mood : string) (t : track)
  (mood_map : dict string (list track)) : dict string (list track) :=
  if cond then dict_append mood t mood_map else mood_map.

Definition classify_track (f : features) (t : track)
  (mood_map : dict string (list track)) : dict string (list track) :=
  let m := append_if (gt (valence f) 0.6 && gt (energy f) 0.6)
             "Happy" t mood_map in
  let m := append_if (lt (valence f) 0.4 && lt (energy f) 0.4) "Sad" t m in
  let m := append_if (gt (energy f) 0.7 && gt (tempo f) 120)
             "Energetic" t m in
  let m := append_if (lt (energy f) 0.4 && lt (tempo f) 100) "Calm" t m in
  let m := append_if (gt (danceability f) 0.7 && gt (energy f) 0.7)
             "Party" t m in
  append_if (gt (acousticness f) 0.5 && lt (energy f) 0.5) "Chill" t m.

Definition analyze_library_by_mood (sp : client) (tracks : list track)
  : dict string (list track) :=
  let track_ids := track_id <$> tracks in
  let all_features := get_audio_features sp track_ids in
  let mood_map : dict string (list track) :=
    [("Happy", []); ("Sad", []); ("Energetic", []); ("Calm", []);
     ("Party", []); ("Chill", [])] in
  let feature_dict := feature_dict_of all_features in
  foldl (fun m t => match feature_dict !! track_id t with
                    | Some f => classify_track f t m
                    | None => m
                    end) mood_map tracks.

(** [if track['id'] not in seen_track_ids: all_tracks.append(track);
    seen_track_ids.add(track['id'])], for every track of a list. *)
Fixpoint add_unseen (new_tracks all_tracks : list track)
  (seen_track_ids : gset string) : list track * gset string :=
  match new_tracks with
  | [] => (all_tracks, seen_track_ids)
  | t :: rest =>
      if decide (track_id t ∈ seen_track_ids)
      then add_unseen rest all_tracks seen_track_ids
      else add_unseen rest (all_tracks ++ [t])
             ({[track_id t]} ∪ seen_track_ids)
  end.

(** The same for the items of a playlist page, whose track may be
    [None]. *)
Fixpoint add_unseen_items (page_items : list (option track))
  (all_tracks : list track) (seen_track_ids : gset string)
  : list track * gset string :=
  match page_items with
  | [] => (all_tracks, seen_track_ids)
  | None :: rest => add_unseen_items rest all_tracks seen_track_ids
  | Some t :: rest =>
      if decide (track_id t ∈ seen_track_ids)
      then add_unseen_items rest all_tracks seen_track_ids
      else add_unseen_items rest (all_tracks ++ [t])
             ({[track_id t]} ∪ seen_track_ids)
  end.

(** [while results: ...] over the pages of one regular playlist.  A call
    that raises leaves the loop; what was appended before stays. *)
Fixpoint playlist_pages_loop
  (responses : list (outcome (page (option track))))
  (all_tracks : list track) (seen_track_ids : gset string)
  : list track * gset string :=
  match responses with
  | [] => (all_tracks, seen_track_ids)
  | Raised :: _ => (all_tracks, seen_track_ids)
  | Returned results :: later =>
      let '(all_tracks', seen') :=
        add_unseen_items (items results) all_tracks seen_track_ids in
      if next results then playlist_pages_loop later all_tracks' seen'
      else (all_tracks', seen')
  end.

(** [for playlist_id in playlist_ids: try: ... except: log] *)
Fixpoint playlists_loop (sp : client) (playlist_ids : list string)
  (all_tracks : list track) (seen_track_ids : gset string) : list track :=
  match playlist_ids with
  | [] => all_tracks
  | playlist_id :: rest =>
      if String.eqb playlist_id "liked_songs" then
        match get_saved_tracks sp None with
        | (Returned liked_tracks, _) =>
            let '(all_tracks', seen') :=
              add_unseen liked_tracks all_tracks seen_track_ids in
            playlists_loop sp rest all_tracks' seen'
        | (Raised, _) => playlists_loop sp rest all_tracks seen_track_ids
        end
      else
        let '(all_tracks', seen') :=
          playlist_pages_loop (playlist_pages sp playlist_id)
            all_tracks seen_track_ids in
        playlists_loop sp rest all_tracks' seen'
  end.

Definition get_tracks_from_playlists (sp : client)
  (playlist_ids : list string) : list track :=
  playlists_loop sp playlist_ids [] ∅.

(** [not bound or t['release_year'] >= bound] and its mirror. *)
Definition from_ok (year_from : option Z) (year : Z) : bool :=
  negb (truthy_int year_from) ||
  match year_from with Some b => (b <=? year)%Z | None => true end.

Definition to_ok (year_to : option Z) (year : Z) : bool :=
  negb (truthy_int year_to) ||
  match year_to with Some b => (year <=? b)%Z | None => true end.

Definition year_pass (year_from year_to : option Z) (t : track) : bool :=
  match release_year t with
  | Some year =>
      truthy_int (Some year) && from_ok year_from year && to_ok year_to year
  | None => false
  end.

(** [[x.strip().lower() for x in l if x.strip()]] *)
Definition strip_lower (l : list string) : list string :=
  (fun x => lower (strip x))
    <$> List.filter (fun x => negb (String.eqb (strip x) "")) l.

Definition artist_pass (artists_lower : list string) (t : track) : bool :=
  existsb (fun name => str_in (lower name) artists_lower)
    (artist_name <$> artists t).

(** The [try] block of the genre filter: [false] also when it raises. *)
Definition genre_pass (sp : client) (genres_lower : list string)
  (t : track) : bool :=
  match artists t with
  | [] => false
  | primary :: _ =>
      match artist sp (artist_id primary) with
      | Returned artist_genres =>
          let artist_genres := lower <$> artist_genres in
          existsb (fun filter_genre =>
                     existsb (fun genre => contains filter_genre genre)
                       artist_genres) genres_lower
      | Raised => false
      end
  end.

(** The [if]/[elif] chain of the mood filter. *)
Definition mood_pass (mood_lower : string) (f : features) : bool :=
  if String.eqb mood_lower "happy"
     && gt (valence f) 0.6 && gt (energy f) 0.6 then true
  else if String.eqb mood_lower "sad"
          && lt (valence f) 0.4 && lt (energy f) 0.4 then true
  else if String.eqb mood_lower "energetic"
          && gt (energy f) 0.7 && gt (tempo f) 120 then true
  else if String.eqb mood_lower "calm"
          && lt (energy f) 0.4 && lt (tempo f) 100 then true
  else if String.eqb mood_lower "party"
          && gt (danceability f) 0.7 && gt (energy f) 0.7 then true
  else false.

Definition filter_by_mood (sp : client) (mood : string)
  (filtered : list track) : list track :=
  let track_ids := track_id <$> filtered in
  let all_features := get_audio_features sp track_ids in
  let feature_dict := feature_dict_of all_features in
  List.filter (fun t => match feature_dict !! track_id t with
                        | Some f => mood_pass (lower mood) f
                        | None => false
                        end) filtered.

Definition filter_tracks (sp : client) (tracks : list track)
  (genres : option (list string)) (mood : option string)
  (year_from year_to : option Z) (artist_names : option (list string))
  : list track :=
  let filtered := tracks in
  let filtered :=
    if truthy_int year_from || truthy_int year_to
    then List.filter (year_pass year_from year_to) filtered
    else filtered in
  let filtered :=
    match artist_names with
    | Some l => if truthy_list l
                then List.filter (artist_pass (strip_lower l)) filtered
                else filtered
    | None => filtered
    end in
  let filtered :=
    match genres with
    | Some l => if truthy_list l
                then List.filter (genre_pass sp (strip_lower l)) filtered
                else filtered
    | None => filtered
    end in
  match mood with
  | Some m => if truthy_str mood then filter_by_mood sp m filtered
              else filtered
  | None => filtered
  end.

(** *** Reading the results *)

(** The primary artist's id of every track. *)
Definition primary_ids (tracks : list track) : list string :=
  omap (fun t => artist_id <$> head (artists t)) tracks.

(** The bucket of a label: [mood_map[label]], empty when missing. *)
Definition bucket (label : string) (m : dict string (list track))
  : list track :=
  default [] (dict_get label m).

(** The six moods and their threshold predicates, as the specification
    words them. *)
Inductive mood : Type := Happy | Sad | Energetic | Calm | Party | Chill.

Definition mood_label (m : mood) : string :=
  match m with
  | Happy => "Happy"
  | Sad => "Sad"
  | Energetic => "Energetic"
  | Calm => "Calm"
  | Party => "Party"
  | Chill => "Chill"
  end.

Definition mood_threshold (m : mood) (f : features) : Prop :=
  match m with
  | Happy => (0.6 < valence f /\ 0.6 < energy f)%Q
  | Sad => (valence f < 0.4 /\ energy f < 0.4)%Q
  | Energetic => (0.7 < energy f /\ 120 < tempo f)%Q
  | Calm => (energy f < 0.4 /\ tempo f < 100)%Q
  | Party => (0.7 < danceability f /\ 0.7 < energy f)%Q
  | Chill => (0.5 < acousticness f /\ energy f < 0.5)%Q
  end.

(** All the items of a sequence of page responses, in page order. *)
Definition all_items (responses : list (outcome (page track)))
  : list track :=
  concat (omap (fun r => match r with
                         | Returned p => Some (items p)
                         | Raised => None
                         end) responses).

(** A page-fetch sequence as the service serves a collection: every fetch
    returns, every page has items, and [next] is set on all pages but the
    last. *)
Fixpoint well_paged (responses : list (outcome (page track))) : Prop :=
  match responses with
  | [] => True
  | Returned p :: later =>
      items p <> [] /\ next p = truthy_list later /\ well_paged later
  | Raised :: _ => False
  end.

(** The tracks a regular playlist yields before its pages end or a fetch
    raises. *)
Fixpoint visible_items (responses : list (outcome (page (option track))))
  : list track :=
  match responses with
  | Returned p :: later =>
      omap (fun o => o) (items p)
        ++ (if next p then visible_items later else [])
  | _ => []
  end.

(** The tracks of one source: the saved tracks for the liked-songs
    pseudo-playlist (none when fetching them raises). *)
Definition source_tracks (sp : client) (playlist_id : string) : list track :=
  if String.eqb playlist_id "liked_songs" then
    match get_saved_tracks sp None with
    | (Returned liked_tracks, _) => liked_tracks
    | (Raised, _) => []
    end
  else visible_items (playlist_pages sp playlist_id).

(** The state of the loop of [get_tracks_from_playlists]: [all_tracks] is
    the first-seen selection of the tracks met so far, [seen_track_ids]
    holds their ids. *)
Definition tracks_so_far (met all_tracks : list track)
  (seen_track_ids : gset string) : Prop :=
  all_tracks = first_by track_id met
  /\ forall i, i ∈ seen_track_ids <-> i ∈ track_id <$> met.

(** The condition under which [classify_track] appends a track to the
    bucket of a mood (see [bucket_classify_track]). *)
Definition classified (m : mood) (f : features) : bool :=
  match m with
  | Happy => gt (valence f) 0.6 && gt (energy f) 0.6
  | Sad => lt (valence f) 0.4 && lt (energy f) 0.4
  | Energetic => gt (energy f) 0.7 && gt (tempo f) 120
  | Calm => lt (energy f) 0.4 && lt (tempo f) 100
  | Party => gt (danceability f) 0.7 && gt (energy f) 0.7
  | Chill => gt (acousticness f) 0.5 && lt (energy f) 0.5
  end.

(** *** The other readers and classifications *)

(** The [while True] loop of [get_playlist_tracks].  The responses are
    those of [playlist_tracks(id, limit=100, offset=...)] at the offsets 0,
    100, 200, ... in turn; past the last listed response the service
    answers with a page without items.  Nothing is caught here: a fetch
    that raises makes the method raise. *)
Fixpoint playlist_tracks_loop
  (responses : list (outcome (page (option track)))) (tracks : list track)
  : outcome (list track) :=
  match responses with
  | [] => Returned tracks
  | Raised :: _ => Raised
  | Returned results :: later =>
      if negb (truthy_list (items results)) then Returned tracks
      else
        let tracks' := tracks ++ omap (fun o => o) (items results) in
        if negb (next results) then Returned tracks'
        else playlist_tracks_loop later tracks'
  end.

Definition get_playlist_tracks (sp : client) (playlist_id : string)
  : outcome (list track) :=
  playlist_tracks_loop (playlist_pages sp playlist_id) [].

(** [track.get('release_year', 'Unknown')]: [_extract_track_info] always
    sets the key, to [None] when the album has no release date, so the
    default is not used and the key of such a track is [None]. *)
Definition year_of (t : track) : PlaylistManager.year_key :=
  match release_year t with
  | Some year => PlaylistManager.YearInt year
  | None => PlaylistManager.YearNone
  end.

Definition analyze_library_by_year (tracks : list track)
  : dict PlaylistManager.year_key (list track) :=
  foldl (fun year_map t => dict_append (year_of t) t year_map) [] tracks.

(** A sequence of page responses in which every fetch returns, every page
    has items and [next] is set on all pages but the last. *)
Fixpoint well_chained {A} (responses : list (outcome (page A))) : Prop :=
  match responses with
  | [] => True
  | Returned p :: later =>
      items p <> [] /\ next p = truthy_list later /\ well_chained later
  | Raised :: _ => False
  end.

(** Pages that are all fetched: each returns, has items and a next link. *)
Definition passed_pages (pages : list (page track)) : Prop :=
  Forall (fun p => items p <> [] /\ next p = true) pages.

(** The genres under which [analyze_library_by_genre] files a track. *)
Definition genres_of (sp : client) (t : track) : list string :=
  match artists t with
  | [] => []
  | primary :: _ =>
      match artist sp (artist_id primary) with
      | Returned genres =>
          if negb (truthy_list genres) then ["Unknown"] else genres
      | Raised => ["Unknown"]
      end
  end.


(** The display name of a track's primary artist. *)
Definition primary_name (t : track) : option string :=
  artist_name <$> head (artists t).

End LibraryAnalyzer.

(** ** [web/app.py]: the genre discovery of [api_discover_genres] *)

Module WebApp.
Import Py.

(** [sp.artists(batch)]: the artist objects of the response, each an id
    and its genres, or an exception. *)
Definition artists_call : Type :=
  list string -> outcome (list (string * list string)).

(** [genre_count[genre] += n] on a [defaultdict(int)]. *)
Fixpoint dict_add (genre : string) (n : nat) (genre_count : dict string nat)
  : dict string nat :=
  match genre_count with
  | [] => [(genre, n)]
  | (g, c) :: rest =>
      if decide (genre = g) then (g, c + n) :: rest
      else (g, c) :: dict_add genre n rest
  end.

(** The loop that fills [artist_tracks]; [track['artists'][0]] raises for a
    track without artists. *)
Fixpoint artist_tracks_loop (tracks : list track)
  (artist_tracks : dict string (list track))
  : outcome (dict string (list track)) :=
  match tracks with
  | [] => Returned artist_tracks
  | t :: rest =>
      match artists t with
      | [] => Raised
      | primary :: _ =>
          artist_tracks_loop rest
            (dict_append (artist_id primary) t artist_tracks)
      end
  end.

(** The body of [for artist in artists_data['artists']]; an id that is not
    a key of [artist_tracks] has no tracks. *)
Definition count_artist (artist_tracks : dict string (list track))
  (genre_count : dict string nat) (artist : string * list string)
  : dict string nat :=
  let track_count := length (default [] (dict_get artist.1 artist_tracks)) in
  if truthy_list artist.2
  then foldl (fun gc genre => dict_add genre track_count gc)
         genre_count artist.2
  else dict_add "Unknown" track_count genre_count.

(** The loop over the batches of artist ids.  [lookups] lists the batches
    passed to [sp.artists].  The [except] branch of the loop calls
    [logger.warning], and [web/app.py] defines no [logger]: when a fetch
    raises, the branch raises [NameError], which leaves the loop (the
    [continue] is never reached) for the handler's outer [except]. *)
Fixpoint artist_batches_loop (sp_artists : artists_call)
  (artist_tracks : dict string (list track)) (batches : list (list string))
  (genre_count : dict string nat) (lookups : list (list string))
  : outcome (dict string nat) * list (list string) :=
  match batches with
  | [] => (Returned genre_count, lookups)
  | batch :: rest =>
      match sp_artists batch with
      | Returned artists_data =>
          artist_batches_loop sp_artists artist_tracks rest
            (foldl (count_artist artist_tracks) genre_count artists_data)
            (lookups ++ [batch])
      | Raised => (Raised, lookups ++ [batch])
      end
  end.

(** [genres.sort(key=lambda x: x['count'], reverse=True)]: by descending
    count, entries with equal counts in their original order. *)
Fixpoint insert_by_count (x : string * nat) (l : list (string * nat))
  : list (string * nat) :=
  match l with
  | [] => [x]
  | y :: rest =>
      if y.2 <=? x.2 then x :: y :: rest else y :: insert_by_count x rest
  end.

Definition sort_by_count (l : list (string * nat)) : list (string * nat) :=
  foldr insert_by_count [] l.

(** What the handler reports. *)
Record discovery := Discovery {
  genres : list (string * nat);
  tracks_analyzed : nat;
  limited : bool
}.

(** The body of the handler from the tracks of the selected playlists on:
    its answer, and the batches it passed to [sp.artists].  An exception
    ends in the error response of the handler's outer [except]
    ([Raised]). *)
Definition discover_genres (sp_artists : artists_call) (tracks : list track)
  : outcome discovery * list (list string) :=
  let max_tracks := 300 in
  let limited := max_tracks <? length tracks in
  let tracks := if limited then take max_tracks tracks else tracks in
  match artist_tracks_loop tracks [] with
  | Raised => (Raised, [])
  | Returned artist_tracks =>
      let artist_ids := keys artist_tracks in
      let batches :=
        (fun i => slice artist_ids i 50)
          <$> range_step (length artist_ids) 50 in
      match artist_batches_loop sp_artists artist_tracks batches [] [] with
      | (Returned genre_count, lookups) =>
          (Returned (Discovery (sort_by_count genre_count) (length tracks)
                       limited), lookups)
      | (Raised, lookups) => (Raised, lookups)
      end
  end.

End WebApp.

(** ** Sample data *)

Module Sample.
Import Py.

Definition artist_one : artist_ref := ArtistRef "a1" "Artist One".
Definition artist_two : artist_ref := ArtistRef "a2" "Artist Two".

Definition song_1994 : track :=
  Track "t1" "First" [artist_one] (Some "spotify:track:t1") (Some 1994%Z).
Definition song_2005 : track :=
  Track "t2" "Second" [artist_one] (Some "spotify:track:t2") (Some 2005%Z).
(** A track without a URI, as a local file has. *)
Definition local_file : track :=
  Track "t3" "Local" [artist_two] None (Some 1994%Z).
(** A track whose album has no release date. *)
Definition undated : track :=
  Track "t4" "Undated" [artist_two] (Some "spotify:track:t4") None.

(** 250 URIs. *)
Definition uris250 : list string :=
  (fun n => "spotify:track:" +:+ str_of_int (Z.of_nat n)) <$> seq 0 250.

(** Every call returns. *)
Definition all_ok : PlaylistManager.client :=
  PlaylistManager.Client (fun _ name _ _ => Some ("id of " +:+ name))
    (fun _ _ _ => true).

(** Every write call raises. *)
Definition writes_fail : PlaylistManager.client :=
  PlaylistManager.Client (fun _ _ _ _ => Some "p1") (fun _ _ _ => false).

(** The second write call raises. *)
Definition second_write_fails : PlaylistManager.client :=
  PlaylistManager.Client (fun _ _ _ _ => Some "p1")
    (fun tr _ _ => negb (length (PlaylistManager.writes tr) =? 1)).

(** Audio features of the sample tracks; "t4" is unscored. *)
Definition sample_features (track_id : string) : option features :=
  if String.eqb track_id "t1" then Some (Features "t1" 0.8 0.8 0.9 0.1 130)
  else if String.eqb track_id "t2" then Some (Features "t2" 0.2 0.3 0.4 0.2 90)
  else if String.eqb track_id "t3" then Some (Features "t3" 0.5 0.1 0.3 0.9 110)
  else None.

(** A library of three saved tracks on two pages and two playlists. *)
Definition catalog : LibraryAnalyzer.client :=
  LibraryAnalyzer.Client
    [Returned (LibraryAnalyzer.Page [song_1994; song_2005] true);
     Returned (LibraryAnalyzer.Page [local_file] false)]
    (fun playlist_id =>
       if String.eqb playlist_id "mix" then
         [Returned (LibraryAnalyzer.Page [Some song_2005; None; Some undated]
                      true);
          Returned (LibraryAnalyzer.Page [Some undated; Some song_1994] false)]
       else if String.eqb playlist_id "broken" then
         [Returned (LibraryAnalyzer.Page [Some local_file] true); Raised]
       else [Raised])
    (fun artist_id =>
       if String.eqb artist_id "a1" then Returned ["dream pop"; "shoegaze"]
       else if String.eqb artist_id "a2" then Returned []
       else Raised)
    (fun ids => sample_features <$> ids).

End Sample.

(** * Properties *)

(** ** Batches of [add_tracks_to_playlist] *)

Section Batches.
Import Py PlaylistManager.

Lemma concat_slices {A} (l : list A) (size m : nat) :
  concat ((fun i => slice l i size) <$> ((fun k => k * size) <$> seq 0 m))
  = take (m * size) l.
Proof.
  induction m as [|m IH].
  - reflexivity.
  - rewrite seq_S, !fmap_app, concat_app, IH. simpl.
    rewrite app_nil_r. unfold slice.
    rewrite take_take_drop. f_equal. lia.
Qed.

Lemma batch_count_covers (n : nat) :
  n <= (n + batch_size - 1) / batch_size * batch_size.
Proof.
  unfold batch_size.
  pose proof (Nat.div_mod_eq (n + 100 - 1) 100) as E.
  pose proof (Nat.mod_upper_bound (n + 100 - 1) 100). lia.
Qed.

Lemma batches_of_concat (track_uris : list string) :
  concat (batches_of track_uris) = track_uris.
Proof.
  unfold batches_of, range_step. rewrite concat_slices.
  apply take_ge, batch_count_covers.
Qed.

Lemma batches_of_size (track_uris : list string) :
  Forall (fun batch => length batch <= batch_size) (batches_of track_uris).
Proof.
  unfold batches_of. apply Forall_fmap, Forall_forall. intros i _. simpl.
  unfold slice. rewrite length_take. lia.
Qed.

Lemma written_cons playlist_id batch rest k tr :
  written playlist_id (batch :: rest) (S k) tr
  = written playlist_id rest k (tr ++ [EvAdd playlist_id batch true]).
Proof. unfold written. simpl. by rewrite <- app_assoc. Qed.

Lemma add_batches_stops sp playlist_id batches k failing tr :
  batches !! k = Some failing ->
  (forall j batch, j < k -> batches !! j = Some batch ->
     playlist_add_items sp (written playlist_id batches j tr)
       playlist_id batch = true) ->
  playlist_add_items sp (written playlist_id batches k tr)
    playlist_id failing = false ->
  add_batches sp playlist_id batches tr
  = (Raised,
     written playlist_id batches k tr ++ [EvAdd playlist_id failing false]).
Proof.
  revert k tr. induction batches as [|batch rest IH]; intros k tr Hk Hok Hf.
  - discriminate.
  - destruct k as [|k]; simpl in *.
    + injection Hk as ->. unfold written in *. simpl in *.
      rewrite app_nil_r in *. by rewrite Hf.
    + pose proof (Hok 0 batch ltac:(lia) eq_refl) as H0.
      unfold written in H0. simpl in H0. rewrite app_nil_r in H0.
      rewrite H0, written_cons. apply IH; [done| |].
      * intros j b Hj Hb. rewrite <- written_cons.
        apply (Hok (S j)); [lia|done].
      * by rewrite <- written_cons.
Qed.

Lemma playlist_content_app playlist_id tr1 tr2 :
  playlist_content playlist_id (tr1 ++ tr2)
  = playlist_content playlist_id tr1 ++ playlist_content playlist_id tr2.
Proof. unfold playlist_content. by rewrite omap_app, concat_app. Qed.

Lemma playlist_content_written playlist_id batches :
  playlist_content playlist_id
    ((fun batch => EvAdd playlist_id batch true) <$> batches)
  = concat batches.
Proof.
  induction batches as [|b bs IH]; [done|].
  unfold playlist_content in *. rewrite fmap_cons. simpl.
  rewrite String.eqb_refl. simpl. f_equal. exact IH.
Qed.

Lemma writes_app tr1 tr2 : writes (tr1 ++ tr2) = writes tr1 ++ writes tr2.
Proof. unfold writes. apply omap_app. Qed.

Lemma writes_written playlist_id batches :
  writes ((fun batch => EvAdd playlist_id batch true) <$> batches)
  = (fun batch => (playlist_id, batch, true)) <$> batches.
Proof.
  induction batches as [|b bs IH]; [done|].
  unfold writes in *. rewrite !fmap_cons. simpl. f_equal. exact IH.
Qed.

(** C9: the URIs are written in batches of at most 100 that make up the
    list; when the first [k] write calls return and call [k + 1] raises,
    [add_tracks_to_playlist] returns [False] having issued exactly those
    [k + 1] calls, in order and none after the failing one, and the
    playlist holds the URIs of batches 1..[k] on top of what it held. *)
Theorem add_tracks_no_rollback sp playlist_id track_uris k failing tr :
  batches_of track_uris !! k = Some failing ->
  (forall j batch, j < k -> batches_of track_uris !! j = Some batch ->
     playlist_add_items sp
       (written playlist_id (batches_of track_uris) j tr)
       playlist_id batch = true) ->
  playlist_add_items sp (written playlist_id (batches_of track_uris) k tr)
    playlist_id failing = false ->
  Forall (fun batch => length batch <= 100) (batches_of track_uris)
  /\ concat (batches_of track_uris) = track_uris
  /\ exists tr',
      add_tracks_to_playlist sp playlist_id track_uris tr = (false, tr')
      /\ tr' = tr ++ ((fun batch => EvAdd playlist_id batch true)
                        <$> take k (batches_of track_uris))
                  ++ [EvAdd playlist_id failing false]
      /\ writes tr' = writes tr
           ++ ((fun batch => (playlist_id, batch, true))
                 <$> take k (batches_of track_uris))
           ++ [(playlist_id, failing, false)]
      /\ playlist_content playlist_id tr'
         = playlist_content playlist_id tr ++ take (k * 100) track_uris.
Proof.
  intros Hk Hok Hf.
  split; [apply batches_of_size|]. split; [apply batches_of_concat|].
  eexists. split; [|split; [reflexivity|split]].
  - unfold add_tracks_to_playlist.
    destruct track_uris as [|u us]; [discriminate|]. simpl negb.
    cbv iota. rewrite (add_batches_stops _ _ _ k failing); try done.
    unfold written. by rewrite <- app_assoc.
  - rewrite !writes_app, writes_written. reflexivity.
  - rewrite !playlist_content_app, playlist_content_written.
    unfold playlist_content at 3. simpl. rewrite app_nil_r. f_equal.
    unfold batches_of, range_step. rewrite <- !fmap_take, take_seq.
    rewrite concat_slices. unfold batch_size.
    apply lookup_lt_Some in Hk. unfold batches_of, range_step in Hk.
    rewrite !length_fmap, length_seq in Hk.
    unfold batch_size in Hk. rewrite Nat.min_l by lia. reflexivity.
Qed.

(** 250 URIs, the second write call raises: the playlist keeps the first
    100 and the third batch is never sent. *)
Lemma add_tracks_no_rollback_witness :
  exists tr',
    add_tracks_to_playlist Sample.second_write_fails "p1" Sample.uris250 []
    = (false, tr')
    /\ length (writes tr') = 2
    /\ playlist_content "p1" tr' = take 100 Sample.uris250.
Proof.
  destruct (add_tracks_no_rollback Sample.second_write_fails "p1"
              Sample.uris250 1 (slice Sample.uris250 100 100) [])
    as (_ & _ & tr' & E & _ & Ew & Ec).
  - vm_compute. reflexivity.
  - intros j batch Hj Hb. assert (j = 0) as -> by lia.
    vm_compute. reflexivity.
  - vm_compute. reflexivity.
  - exists tr'. split; [exact E|]. split.
    + rewrite Ew. reflexivity.
    + rewrite Ec. reflexivity.
Defined.

End Batches.

(** ** The loops of the [create_*_playlists] methods *)

Section Builder.
Import Py PlaylistManager.

Lemma creation_calls_app tr1 tr2 :
  creation_calls (tr1 ++ tr2) = creation_calls tr1 ++ creation_calls tr2.
Proof. apply omap_app. Qed.

Lemma creation_results_app tr1 tr2 :
  creation_results (tr1 ++ tr2)
  = creation_results tr1 ++ creation_results tr2.
Proof. apply omap_app. Qed.

Lemma add_batches_trace sp playlist_id batches tr :
  exists evs, (add_batches sp playlist_id batches tr).2 = tr ++ evs
              /\ only_writes evs.
Proof.
  revert tr. induction batches as [|b bs IH]; intros tr; simpl.
  - exists []. by rewrite app_nil_r.
  - destruct (playlist_add_items sp tr playlist_id b).
    + destruct (IH (tr ++ [EvAdd playlist_id b true])) as (evs & -> & Hc & Hr).
      exists (EvAdd playlist_id b true :: evs).
      rewrite <- app_assoc. by repeat split.
    + by exists [EvAdd playlist_id b false].
Qed.

Lemma add_tracks_trace sp playlist_id track_uris tr :
  exists evs,
    (add_tracks_to_playlist sp playlist_id track_uris tr).2 = tr ++ evs
    /\ only_writes evs.
Proof.
  unfold add_tracks_to_playlist. destruct (negb (truthy_list track_uris)).
  - exists []. by rewrite app_nil_r.
  - destruct (add_batches_trace sp playlist_id (batches_of track_uris) tr)
      as (evs & E & H).
    exists evs. split; [|done].
    by destruct (add_batches _ _ _ _) as [[]]; simpl in *.
Qed.

Lemma add_tracks_nothing sp playlist_id tr :
  add_tracks_to_playlist sp playlist_id [] tr = (false, tr).
Proof. reflexivity. Qed.

(** What one pass through the [try] block does. *)
Lemma create_and_fill_spec sp name description public tracks tr :
  let result := user_playlist_create sp tr name description public in
  exists evs,
    create_and_fill sp name description public tracks tr
    = (match result with Some p => Returned p | None => Raised end,
       tr ++ EvCreate name description public result :: evs)
    /\ only_writes evs
    /\ (writable_uris tracks = [] -> evs = []).
Proof.
  intros result. unfold create_and_fill, create_playlist. fold result.
  destruct result as [p|].
  - destruct (add_tracks_trace sp p (writable_uris tracks)
                (tr ++ [EvCreate name description public (Some p)]))
      as (evs & E & H).
    exists evs.
    destruct (add_tracks_to_playlist _ _ _ _) as [b tr2] eqn:Eadd.
    simpl in E. subst tr2. rewrite <- app_assoc. repeat split; try apply H.
    intros Hw. rewrite Hw, add_tracks_nothing in Eadd.
    injection Eadd as _ Eadd. symmetry in Eadd.
    rewrite <- (app_nil_r (tr ++ _)) in Eadd at 1.
    rewrite <- !app_assoc in Eadd. by simplify_list_eq.
  - exists []. by repeat split.
Qed.

Context {K : Type} `{EqDecision K}.

Lemma dict_set_fresh {V} (k : K) (v : V) (d : dict K V) :
  k ∉ keys d -> dict_set k v d = d ++ [(k, v)].
Proof.
  induction d as [|[k' v'] d IH]; intros Hk; simpl; [done|].
  unfold keys in *. rewrite fmap_cons, not_elem_of_cons in Hk.
  destruct Hk as [Hne Hk]. simpl in Hne.
  destruct (decide (k = k')); [done|]. by rewrite IH.
Qed.


Lemma creation_results_length tr :
  length (creation_results tr) = length (creation_calls tr).
Proof.
  induction tr as [|[] tr IH]; simpl; [done| |done].
  change (S (length (creation_results tr)) = S (length (creation_calls tr))).
  by rewrite IH.
Qed.

Lemma successes_cons (k : K) ts buckets result results :
  successes ((k, ts) :: buckets) (result :: results)
  = match result with
    | Some playlist_id => (k, playlist_id) :: successes buckets results
    | None => successes buckets results
    end.
Proof. by destruct result. Qed.

Lemma dict_get_successes_absent (k : K) buckets results :
  k ∉ keys buckets -> dict_get k (successes buckets results) = None.
Proof.
  revert results. induction buckets as [|[k' ts] buckets IH];
    intros [|r results] Hk; try done.
  apply not_elem_of_cons in Hk as [Hne Hk]. rewrite successes_cons.
  destruct r as [p|]; simpl; [|by apply IH].
  destruct (decide (k = k')); [done|by apply IH].
Qed.

(** With distinct labels, the entry of a bucket is the result of its own
    creation call. *)
Lemma dict_get_successes buckets results i (kv : K * list track) result :
  NoDup (keys buckets) ->
  buckets !! i = Some kv -> results !! i = Some result ->
  dict_get kv.1 (successes buckets results) = result.
Proof.
  revert results i. induction buckets as [|[k ts] buckets IH];
    intros [|r results] i Hnd Hb Hr; try done.
  apply NoDup_cons in Hnd as [Hk Hnd]. rewrite successes_cons.
  destruct i as [|i]; simpl in *.
  - injection Hb as <-. injection Hr as <-. simpl.
    destruct r as [p|]; simpl.
    + by rewrite decide_True.
    + by apply dict_get_successes_absent.
  - assert (Hne : kv.1 <> k).
    { intros <-. apply Hk. apply list_elem_of_fmap. exists kv.
      split; [done|]. by eapply list_elem_of_lookup_2. }
    destruct r as [p|]; simpl; [rewrite decide_False by done|];
      by eapply IH.
Qed.

Lemma NoDup_keys_filter {V} (f : K * V -> bool) (d : dict K V) :
  NoDup (keys d) -> NoDup (keys (List.filter f d)).
Proof.
  induction d as [|[k v] d IH]; simpl; intros Hnd; [done|].
  apply NoDup_cons in Hnd as [Hk Hnd].
  destruct (f (k, v)); simpl; [|by apply IH].
  apply NoDup_cons. split; [|by apply IH]. intros Hin. apply Hk.
  apply list_elem_of_fmap in Hin as ([k' v'] & -> & Hin).
  apply list_elem_of_In, filter_In in Hin as [Hin _].
  apply list_elem_of_fmap. exists (k', v'). split; [done|].
  by apply list_elem_of_In.
Qed.

Lemma attempted_all (items : dict K (list track)) :
  attempted (fun _ _ => false) items = items.
Proof.
  unfold attempted. induction items as [|kv items IH]; [done|].
  simpl. f_equal. exact IH.
Qed.

Variable skip : K -> list track -> bool.
Variable playlist_name : K -> list track -> string.
Variable description : K -> list track -> string.


(** The creation calls of a loop are those of the buckets it does not
    skip, one each and in the order of the map; with distinct keys the
    returned map lists the buckets whose creation returned. *)
Lemma create_loop_spec sp public items created tr :
  exists evs,
    (create_loop skip playlist_name description sp public items created
       tr).2 = tr ++ evs
    /\ creation_calls evs
       = (fun kv => (playlist_name kv.1 kv.2, description kv.1 kv.2))
           <$> attempted skip items
    /\ (NoDup (keys items) ->
        (forall k, k ∈ keys items -> k ∉ keys created) ->
        (create_loop skip playlist_name description sp public items created
           tr).1
        = created ++ successes (attempted skip items)
                       (creation_results evs)).
Proof.
  revert created tr.
  induction items as [|[k ts] items IH]; intros created tr.
  - exists []. simpl. rewrite !app_nil_r. by repeat split.
  - simpl. unfold attempted. simpl. fold (attempted skip items).
    destruct (skip k ts) eqn:Hskip; simpl.
    + destruct (IH created tr) as (evs & E & Hc & Hs).
      exists evs. repeat split; try done.
      intros Hnd Hfresh. apply Hs.
      * by apply NoDup_cons in Hnd as [_ Hnd].
      * intros k' Hk'. apply Hfresh. by right.
    + destruct (create_and_fill_spec sp (playlist_name k ts)
                  (description k ts) public ts tr)
        as (adds & -> & [Hac Har] & _).
      set (result := user_playlist_create sp tr _ _ public).
      assert (Hrest : forall created',
        exists evs,
          (create_loop skip playlist_name description sp public items created'
             (tr ++ EvCreate (playlist_name k ts) (description k ts)
                      public result :: adds)).2
          = tr ++ EvCreate (playlist_name k ts) (description k ts)
                    public result :: adds ++ evs
          /\ creation_calls
               (EvCreate (playlist_name k ts) (description k ts)
                  public result :: adds ++ evs)
             = (playlist_name k ts, description k ts)
                 :: ((fun kv => (playlist_name kv.1 kv.2,
                                 description kv.1 kv.2))
                       <$> attempted skip items)
          /\ creation_results
               (EvCreate (playlist_name k ts) (description k ts)
                  public result :: adds ++ evs)
             = result :: creation_results evs
          /\ (NoDup (keys items) ->
              (forall k', k' ∈ keys items -> k' ∉ keys created') ->
              (create_loop skip playlist_name description sp public items
                 created'
                 (tr ++ EvCreate (playlist_name k ts) (description k ts)
                          public result :: adds)).1
              = created' ++ successes (attempted skip items)
                              (creation_results evs))).
      { intros created'.
        destruct (IH created'
                    (tr ++ EvCreate (playlist_name k ts) (description k ts)
                             public result :: adds))
          as (evs & E & Hc & Hs).
        exists evs. rewrite E, <- app_assoc. simpl.
        change (creation_calls (EvCreate ?n ?d ?p ?r :: ?l))
          with ((n, d) :: creation_calls l).
        change (creation_results (EvCreate ?n ?d ?p ?r :: ?l))
          with (r :: creation_results l).
        rewrite creation_calls_app, creation_results_app, Hac, Har, Hc.
        repeat split; done. }
      assert (Hsplit : NoDup (keys ((k, ts) :: items)) ->
                       (k ∉ keys items) /\ NoDup (keys items)).
      { intros Hnd. by apply NoDup_cons in Hnd. }
      destruct result as [p|].
      * destruct (Hrest (dict_set k p created)) as (evs & E & Hc & Hr & Hs).
        exists (EvCreate (playlist_name k ts) (description k ts) public
                  (Some p) :: adds ++ evs).
        repeat split; try done.
        intros Hnd Hfresh. destruct (Hsplit Hnd) as [Hk Hnd'].
        assert (Hkc : k ∉ keys created).
        { apply Hfresh. by left. }
        rewrite Hs, Hr; try done.
        -- rewrite (dict_set_fresh _ _ _ Hkc), <- app_assoc. reflexivity.
        -- intros k' Hk'. rewrite (dict_set_fresh _ _ _ Hkc).
           unfold keys. rewrite fmap_app, not_elem_of_app. split.
           ++ apply Hfresh. by right.
           ++ simpl. rewrite list_elem_of_singleton. by intros ->.
      * destruct (Hrest created) as (evs & E & Hc & Hr & Hs).
        exists (EvCreate (playlist_name k ts) (description k ts) public
                  None :: adds ++ evs).
        repeat split; try done.
        intros Hnd Hfresh. destruct (Hsplit Hnd) as [Hk Hnd'].
        rewrite Hs, Hr; try done.
        intros k' Hk'. apply Hfresh. by right.
Qed.


End Builder.

(** ** What the builder creates and reports *)

Section SuccessMap.
Import Py PlaylistManager.

(** C1, counterexample: the playlist for "rock" is created, its only write
    call raises, and "rock" is in the returned map all the same. *)
Lemma write_failure_still_listed :
  let out := create_genre_playlists Sample.writes_fail
               [("rock", [Sample.song_1994])] "SpotifySort" false [] in
  creation_results out.2 = [Some "p1"]
  /\ writes out.2 = [("p1", ["spotify:track:t1"], false)]
  /\ dict_get "rock" out.1 = Some "p1"
  /\ dict_get "rock" out.1 <> None.
Proof. vm_compute. repeat split; discriminate. Qed.

(** C1, amended: for every bucket-to-track-list mapping (a dictionary: the
    labels are distinct), one playlist creation is issued for each bucket
    whose track list is non-empty, in the order of the mapping, and the
    returned map lists exactly the buckets whose creation call returned,
    each with its new playlist id: a bucket whose creation raised is left
    out and the remaining buckets are still processed, while the outcome of
    the batch writes has no part in it, so a bucket stays listed when one of
    its batch writes fails. *)
Theorem created_map_follows_creation sp genre_map prefix public tr :
  NoDup (keys genre_map) ->
  let nonempty := List.filter (fun kv => truthy_list kv.2) genre_map in
  let out := create_genre_playlists sp genre_map prefix public tr in
  exists evs,
    out.2 = tr ++ evs
    /\ creation_calls evs
       = (fun kv => (genre_playlist_name prefix kv.1,
                     genre_description kv.1 kv.2)) <$> nonempty
    /\ out.1 = successes nonempty (creation_results evs)
    /\ forall i kv, nonempty !! i = Some kv ->
         exists result,
           creation_results evs !! i = Some result
           /\ dict_get kv.1 out.1 = result.
Proof.
  intros Hnd nonempty out. unfold out, create_genre_playlists.
  destruct (create_loop_spec (fun _ tracks => negb (truthy_list tracks))
              (fun genre _ => genre_playlist_name prefix genre)
              genre_description sp public genre_map [] tr)
    as (evs & E & Hc & Hs).
  assert (Hatt : attempted (fun _ tracks => negb (truthy_list tracks))
                   genre_map = nonempty).
  { unfold attempted, nonempty. apply List.filter_ext.
    intros [k ts]. simpl. by destruct (truthy_list ts). }
  rewrite Hatt in *. exists evs.
  assert (Hmap : (create_loop (fun _ tracks => negb (truthy_list tracks))
                    (fun genre _ => genre_playlist_name prefix genre)
                    genre_description sp public genre_map [] tr).1
                 = successes nonempty (creation_results evs)).
  { rewrite Hs; [done|done|]. intros k _. apply not_elem_of_nil. }
  split; [done|]. split; [done|]. split; [done|].
  intros i kv Hi.
  assert (Hlen : i < length (creation_results evs)).
  { rewrite creation_results_length, Hc, length_fmap.
    by eapply lookup_lt_Some. }
  destruct (lookup_lt_is_Some_2 _ _ Hlen) as [result Hr].
  exists result. split; [done|]. rewrite Hmap.
  eapply dict_get_successes; [|done..].
  by apply NoDup_keys_filter.
Qed.

Lemma created_map_follows_creation_witness :
  exists evs,
    (create_genre_playlists Sample.writes_fail
       [("rock", [Sample.song_1994]); ("empty", [])] "SpotifySort" false
       []).2 = [] ++ evs
    /\ (create_genre_playlists Sample.writes_fail
          [("rock", [Sample.song_1994]); ("empty", [])] "SpotifySort" false
          []).1 = [("rock", "p1")].
Proof.
  destruct (created_map_follows_creation Sample.writes_fail
              [("rock", [Sample.song_1994]); ("empty", [])]
              "SpotifySort" false []) as (evs & E & _ & Hs & _).
  - apply (bool_decide_unpack _). vm_compute. reflexivity.
  - exists evs. split; [exact E|]. vm_compute. reflexivity.
Defined.




End SuccessMap.

(** ** First-seen order *)

Section FirstSeen.
Import Py.
Context {A K : Type} `{EqDecision K} (key : A -> K).

Lemma first_by_filter (P : K -> Prop) `{forall k, Decision (P k)}
  (l : list A) :
  first_by key (filter (fun x => P (key x)) l)
  = filter (fun x => P (key x)) (first_by key l).
Proof.
  induction l as [|x l IH]; [done|]. simpl.
  destruct (decide (P (key x))) as [Hx|Hx].
  - rewrite !filter_cons_True by done. simpl. rewrite IH. f_equal.
    rewrite !list_filter_filter. apply list_filter_iff. tauto.
  - rewrite !filter_cons_False by done. rewrite IH, list_filter_filter.
    apply list_filter_iff. intros y. split; [|tauto].
    intros Hy. split; [done|]. by intros E; rewrite E in Hy.
Qed.

Lemma first_by_keys_subset (l : list A) (k : K) :
  k ∈ key <$> first_by key l <-> k ∈ key <$> l.
Proof.
  induction l as [|x l IH]; [done|]. simpl. rewrite !elem_of_cons, <- IH.
  rewrite !list_elem_of_fmap. split.
  - intros [->|(y & -> & Hy)]; [by left|].
    apply list_elem_of_filter in Hy as [_ Hy]. right. by exists y.
  - intros [->|(y & -> & Hy)]; [by left|].
    destruct (decide (key y = key x)) as [E|E]; [by left|].
    right. exists y. split; [done|]. by apply list_elem_of_filter.
Qed.

Lemma first_by_NoDup (l : list A) : NoDup (key <$> first_by key l).
Proof.
  induction l as [|x l IH]; simpl; [constructor|].
  apply NoDup_cons. split.
  - rewrite list_elem_of_fmap. intros (y & E & Hy).
    apply list_elem_of_filter in Hy as [Hy _]. by apply Hy.
  - assert (Hsub : forall l', NoDup (key <$> l') ->
                     NoDup (key <$> filter (fun y => key y <> key x) l')).
    { induction l' as [|z l' IH']; [done|]. rewrite fmap_cons, NoDup_cons.
      intros [Hz Hl']. destruct (decide (key z <> key x)).
      - rewrite filter_cons_True by done. rewrite fmap_cons, NoDup_cons.
        split; [|by apply IH']. rewrite list_elem_of_fmap in *.
        intros (y & E & Hy). apply Hz. exists y. split; [done|].
        by apply list_elem_of_filter in Hy as [_ Hy].
      - rewrite filter_cons_False by done. by apply IH'. }
    by apply Hsub.
Qed.

Lemma keys_dict_append {V} (k : K) (x : V) (d : dict K (list V)) :
  keys (dict_append k x d)
  = if decide (k ∈ keys d) then keys d else keys d ++ [k].
Proof.
  induction d as [|[k' l] d IH]; simpl.
  - by destruct (decide (k ∈ [])) as [Hin|]; [inversion Hin|].
  - destruct (decide (k = k')) as [->|Hne]; simpl.
    + destruct (decide (k' ∈ k' :: keys d)) as [|Hn]; [done|].
      exfalso. apply Hn. by left.
    + rewrite IH.
      destruct (decide (k ∈ keys d)) as [Hin|Hnin];
        destruct (decide (k ∈ k' :: keys d)) as [Hin'|Hnin']; try done.
      * exfalso. apply Hnin'. by right.
      * exfalso. apply elem_of_cons in Hin' as [?|?]; [done|].
        by apply Hnin.
Qed.

End FirstSeen.

(** ** Which buckets get a playlist, and in which order *)

Section Modes.
Import Py PlaylistManager.

Lemma group_by_decade_keys (tracks : list track)
  (decade_map : dict Z (list track)) :
  keys (group_by_decade tracks decade_map)
  = keys decade_map
    ++ first_by (fun d : Z => d)
         (filter (fun d => d ∉ keys decade_map) (omap decade_of tracks)).
Proof.
  revert decade_map. induction tracks as [|t rest IH]; intros m; simpl.
  - by rewrite app_nil_r.
  - destruct (decade_of t) as [d|]; [|apply IH].
    rewrite IH, keys_dict_append.
    destruct (decide (d ∈ keys m)) as [Hin|Hnin].
    + by rewrite filter_cons_False by (by intros Hn).
    + rewrite filter_cons_True by done. simpl. rewrite <- app_assoc. simpl.
      do 2 f_equal.
      rewrite <- (first_by_filter (fun d : Z => d) (fun k => k <> d)).
      f_equal. rewrite list_filter_filter. apply list_filter_iff.
      intros y. rewrite not_elem_of_app, list_elem_of_singleton. tauto.
Qed.

Lemma group_by_decade_nonempty (tracks : list track)
  (decade_map : dict Z (list track)) :
  Forall (fun kv => kv.2 <> []) decade_map ->
  Forall (fun kv => kv.2 <> []) (group_by_decade tracks decade_map).
Proof.
  revert decade_map. induction tracks as [|t rest IH]; intros m Hm; simpl.
  - done.
  - destruct (decade_of t) as [d|]; [|by apply IH].
    apply IH. clear IH. induction m as [|[k l] m IHm]; simpl.
    + by repeat constructor.
    + apply Forall_cons in Hm as [Hl Hm].
      destruct (decide (d = k)); constructor; simpl; try done.
      * by destruct l.
      * by apply IHm.
Qed.

Lemma decade_creation_calls sp tracks prefix public tr :
  exists evs,
    (create_decade_playlists sp tracks prefix public tr).2 = tr ++ evs
    /\ creation_calls evs
       = (fun kv => (decade_playlist_name prefix kv.1,
                     decade_description kv.1 kv.2))
           <$> group_by_decade tracks [].
Proof.
  unfold create_decade_playlists.
  destruct (create_loop_spec (fun _ _ => false)
              (fun decade _ => decade_playlist_name prefix decade)
              decade_description sp public (group_by_decade tracks []) [] tr)
    as (evs & E & Hc & _).
  exists evs. split; [done|]. by rewrite Hc, attempted_all.
Qed.

(** C3, counterexample: by artist, with the default [min_tracks] of 5, a
    bucket of one track gets no creation call. *)
Lemma small_artist_bucket_skipped :
  create_artist_playlists Sample.all_ok
    [("Artist One", [Sample.song_1994])] "SpotifySort" false 5 []
  = ([], []).
Proof. vm_compute. reflexivity. Qed.

(** C3, amended: by genre, by mood and by decade the builder issues one
    playlist creation for each bucket whose track list is non-empty, in the
    order of the mapping (the decade buckets are all non-empty); by artist
    it issues one for each bucket that holds at least [min_tracks] tracks
    (5 unless given) and for no other; by year for each non-empty bucket
    that is not labelled "Unknown". *)
Theorem creation_attempts_per_mode sp prefix public tr :
  (forall genre_map, exists evs,
      (create_genre_playlists sp genre_map prefix public tr).2 = tr ++ evs
      /\ creation_calls evs
         = (fun kv => (genre_playlist_name prefix kv.1,
                       genre_description kv.1 kv.2))
             <$> List.filter (fun kv => truthy_list kv.2) genre_map)
  /\ (forall mood_map, exists evs,
      (create_mood_playlists sp mood_map prefix public tr).2 = tr ++ evs
      /\ creation_calls evs
         = (fun kv => (mood_playlist_name prefix kv.1,
                       mood_description kv.1 kv.2))
             <$> List.filter (fun kv => truthy_list kv.2) mood_map)
  /\ (forall tracks, exists evs,
      (create_decade_playlists sp tracks prefix public tr).2 = tr ++ evs
      /\ creation_calls evs
         = (fun kv => (decade_playlist_name prefix kv.1,
                       decade_description kv.1 kv.2))
             <$> group_by_decade tracks []
      /\ Forall (fun kv => kv.2 <> []) (group_by_decade tracks []))
  /\ (forall artist_map min_tracks, exists evs,
      (create_artist_playlists sp artist_map prefix public min_tracks tr).2
      = tr ++ evs
      /\ creation_calls evs
         = (fun kv => (artist_playlist_name prefix kv.1,
                       artist_description kv.1 kv.2))
             <$> List.filter
                   (fun kv => (min_tracks <=? Z.of_nat (length kv.2))%Z)
                   artist_map)
  /\ (forall year_map, exists evs,
      (create_year_playlists sp year_map prefix public tr).2 = tr ++ evs
      /\ creation_calls evs
         = (fun kv => (year_playlist_name prefix kv.1,
                       year_description kv.1 kv.2))
             <$> List.filter
                   (fun kv => truthy_list kv.2
                              && negb (bool_decide (kv.1 = YearStr "Unknown")))
                   year_map).
Proof.
  assert (Hne : forall (items : dict string (list track)),
             attempted (fun _ tracks => negb (truthy_list tracks)) items
             = List.filter (fun kv => truthy_list kv.2) items).
  { intros items. apply List.filter_ext. intros [k ts]. simpl.
    by destruct (truthy_list ts). }
  repeat split.
  - intros genre_map. unfold create_genre_playlists.
    destruct (create_loop_spec (fun _ tracks => negb (truthy_list tracks))
                (fun genre _ => genre_playlist_name prefix genre)
                genre_description sp public genre_map [] tr)
      as (evs & E & Hc & _).
    exists evs. by rewrite <- Hne.
  - intros mood_map. unfold create_mood_playlists.
    destruct (create_loop_spec (fun _ tracks => negb (truthy_list tracks))
                (fun mood _ => mood_playlist_name prefix mood)
                mood_description sp public mood_map [] tr)
      as (evs & E & Hc & _).
    exists evs. by rewrite <- Hne.
  - intros tracks.
    destruct (decade_creation_calls sp tracks prefix public tr)
      as (evs & E & Hc).
    exists evs. repeat split; try done.
    by apply group_by_decade_nonempty.
  - intros artist_map min_tracks. unfold create_artist_playlists.
    destruct (create_loop_spec (fun _ _ => false)
                (fun artist _ => artist_playlist_name prefix artist)
                artist_description sp public
                (List.filter (enough_tracks min_tracks) artist_map) [] tr)
      as (evs & E & Hc & _).
    exists evs. by rewrite attempted_all in Hc.
  - intros year_map. unfold create_year_playlists.
    destruct (create_loop_spec year_skip
                (fun year _ => year_playlist_name prefix year)
                year_description sp public year_map [] tr)
      as (evs & E & Hc & _).
    exists evs. split; [done|]. rewrite Hc. f_equal.
    apply List.filter_ext. intros [k ts]. unfold year_skip. simpl.
    by rewrite negb_orb, negb_involutive.
Qed.

(** C4, counterexample: a 2005 track before a 1994 track; the 2000s
    playlist is created before the 1990s one. *)
Lemma decades_not_ascending :
  let tracks := [Sample.song_2005; Sample.song_1994] in
  keys (group_by_decade tracks []) = [2000; 1990]%Z
  /\ (creation_calls
        (create_decade_playlists Sample.all_ok tracks "SpotifySort" false
           []).2).*1
     = ["SpotifySort - 2000s"; "SpotifySort - 1990s"]
  /\ ~ Sorted Z.le (keys (group_by_decade tracks [])).
Proof.
  split; [|split]; [vm_compute; reflexivity..|].
  change (~ Sorted Z.le [2000; 1990]%Z). intros Hs.
  apply Sorted_inv in Hs as [_ Hd]. apply HdRel_inv in Hd. lia.
Qed.

(** C4, amended: the decade buckets are processed in the order in which
    their decades first occur in the track sequence (tracks without a
    release year aside): the loop visits the decades in that order, once
    each, and issues the playlist creations in that order. *)
Theorem decades_in_first_seen_order sp tracks prefix public tr :
  let decades := first_by (fun d : Z => d) (omap decade_of tracks) in
  keys (group_by_decade tracks []) = decades
  /\ NoDup decades
  /\ exists evs,
       (create_decade_playlists sp tracks prefix public tr).2 = tr ++ evs
       /\ (creation_calls evs).*1 = decade_playlist_name prefix <$> decades.
Proof.
  intros decades.
  assert (Hk : keys (group_by_decade tracks []) = decades).
  { rewrite group_by_decade_keys. simpl. unfold decades. f_equal.
    induction (omap decade_of tracks) as [|d l IH]; [done|].
    rewrite filter_cons_True by apply not_elem_of_nil. by rewrite IH. }
  split; [done|]. split.
  { pose proof (first_by_NoDup (fun d : Z => d) (omap decade_of tracks)) as H.
    by rewrite list_fmap_id in H. }
  destruct (decade_creation_calls sp tracks prefix public tr)
    as (evs & E & Hc).
  exists evs. split; [done|]. rewrite Hc, <- Hk. unfold keys.
  rewrite <- !list_fmap_compose. reflexivity.
Qed.

End Modes.

(** ** Artist lookups of the genre classification *)

Section GenreLookups.
Import Py LibraryAnalyzer.

Lemma genre_loop_lookups sp tracks genre_map lookups :
  Forall (fun t => artists t <> []) tracks ->
  (genre_loop sp tracks genre_map lookups).2 = lookups ++ primary_ids tracks
  /\ exists m, (genre_loop sp tracks genre_map lookups).1 = Returned m.
Proof.
  revert genre_map lookups.
  induction tracks as [|t rest IH]; intros m lookups Hall; simpl.
  - rewrite app_nil_r. eauto.
  - apply Forall_cons in Hall as [Ht Hrest].
    unfold primary_ids. simpl. fold (primary_ids rest).
    destruct (artists t) as [|primary others]; [done|]. simpl.
    destruct (artist sp (artist_id primary)) as [genres|].
    + destruct (IH (append_to_genres t
                      (if negb (truthy_list genres) then ["Unknown"]
                       else genres) m)
                  (lookups ++ [artist_id primary]) Hrest) as [-> Hm].
      by rewrite <- app_assoc.
    + destruct (IH (dict_append "Unknown" t m)
                  (lookups ++ [artist_id primary]) Hrest) as [-> Hm].
      by rewrite <- app_assoc.
Qed.

(** C5, counterexample: two tracks of the same artist, two lookups of the
    same id, one distinct id. *)
Lemma same_artist_looked_up_twice :
  let tracks := [Sample.song_1994; Sample.song_2005] in
  (analyze_library_by_genre Sample.catalog tracks).2 = ["a1"; "a1"]
  /\ size (list_to_set (primary_ids tracks) : gset string) = 1
  /\ length (analyze_library_by_genre Sample.catalog tracks).2
     <> size (list_to_set (primary_ids tracks) : gset string).
Proof. vm_compute. repeat split; discriminate. Qed.

(** C5, amended: during one genre classification of a track sequence in
    which every track has a primary artist, the remote artist lookups are
    the primary-artist ids of the tracks, one lookup per track and in track
    order; their number is the number of tracks, so an artist with several
    tracks is looked up once for each of them. *)
Theorem one_artist_lookup_per_track sp tracks :
  Forall (fun t => artists t <> []) tracks ->
  (analyze_library_by_genre sp tracks).2 = primary_ids tracks
  /\ length (analyze_library_by_genre sp tracks).2 = length tracks
  /\ exists genre_map,
       (analyze_library_by_genre sp tracks).1 = Returned genre_map.
Proof.
  intros Hall. unfold analyze_library_by_genre.
  destruct (genre_loop_lookups sp tracks [] [] Hall) as [E Hm].
  rewrite E. simpl. repeat split; [|done].
  clear E Hm. induction Hall as [|t rest Ht _ IH]; [done|].
  unfold primary_ids in *. simpl.
  destruct (artists t); [done|]. simpl. f_equal. exact IH.
Qed.

Lemma one_artist_lookup_per_track_witness :
  (analyze_library_by_genre Sample.catalog
     [Sample.song_1994; Sample.local_file; Sample.song_2005]).2
  = ["a1"; "a2"; "a1"].
Proof.
  destruct (one_artist_lookup_per_track Sample.catalog
              [Sample.song_1994; Sample.local_file; Sample.song_2005])
    as (E & _).
  - repeat constructor; discriminate.
  - rewrite E. reflexivity.
Defined.

End GenreLookups.

(** ** The composable filter *)

Section Filter.
Import Py LibraryAnalyzer.

Lemma filter_tracks_subset sp tracks genres mood year_from year_to names t :
  t ∈ filter_tracks sp tracks genres mood year_from year_to names ->
  t ∈ (if truthy_int year_from || truthy_int year_to
       then List.filter (year_pass year_from year_to) tracks
       else tracks).
Proof.
  unfold filter_tracks.
  set (by_year := if truthy_int year_from || truthy_int year_to
                  then List.filter (year_pass year_from year_to) tracks
                  else tracks).
  set (by_artist := match names with
                    | Some l => if truthy_list l
                                then List.filter (artist_pass (strip_lower l))
                                       by_year
                                else by_year
                    | None => by_year
                    end).
  set (by_genre := match genres with
                   | Some l => if truthy_list l
                               then List.filter (genre_pass sp (strip_lower l))
                                      by_artist
                               else by_artist
                   | None => by_artist
                   end).
  intros Hm.
  assert (H3 : t ∈ by_genre).
  { destruct mood as [m|]; [|done]. destruct (truthy_str (Some m)); [|done].
    unfold filter_by_mood in Hm.
    apply list_elem_of_In, filter_In in Hm as [Hm _].
    by apply list_elem_of_In. }
  assert (H2 : t ∈ by_artist).
  { unfold by_genre in H3. destruct genres as [l|]; [|done].
    destruct (truthy_list l); [|done].
    apply list_elem_of_In, filter_In in H3 as [H3 _].
    by apply list_elem_of_In. }
  unfold by_artist in H2. destruct names as [l|]; [|done].
  destruct (truthy_list l); [|done].
  apply list_elem_of_In, filter_In in H2 as [H2 _].
  by apply list_elem_of_In.
Qed.

(** C10, counterexample: [year_from = 0] is supplied, and the track
    without a release year passes. *)
Lemma zero_bound_lets_undated_pass :
  release_year Sample.undated = None
  /\ filter_tracks Sample.catalog [Sample.undated] None None (Some 0%Z) None
       None = [Sample.undated].
Proof. vm_compute. split; reflexivity. Qed.

(** C10, amended: whenever at least one year bound is supplied with a
    value other than 0 (a bound of 0 counts as not supplied), every track
    whose release year is absent is excluded from the output of the filter,
    whatever the other predicates are. *)
Theorem undated_tracks_fail_year_filter
  sp tracks genres mood year_from year_to names t :
  truthy_int year_from || truthy_int year_to = true ->
  release_year t = None ->
  t ∉ filter_tracks sp tracks genres mood year_from year_to names.
Proof.
  intros Hb Hy Hin. apply filter_tracks_subset in Hin. rewrite Hb in Hin.
  apply list_elem_of_In, filter_In in Hin as [_ Hp].
  unfold year_pass in Hp. by rewrite Hy in Hp.
Qed.

Lemma undated_tracks_fail_year_filter_witness :
  Sample.undated
    ∉ filter_tracks Sample.catalog [Sample.song_1994; Sample.undated]
        None None (Some 1990%Z) None (Some ["artist two"]).
Proof.
  apply undated_tracks_fail_year_filter.
  - reflexivity.
  - reflexivity.
Defined.

End Filter.

(** ** The paginator *)

Section Paginator.
Import Py LibraryAnalyzer.
Arguments limit_reached : simpl never.

Lemma limit_reached_falsy limit tracks :
  truthy_int limit = false -> limit_reached limit tracks = false.
Proof. intros H. unfold limit_reached. destruct limit; [by rewrite H|done]. Qed.

Lemma append_items_falsy limit acc page_items :
  truthy_int limit = false ->
  append_items limit acc page_items = acc ++ page_items.
Proof.
  intros H. revert acc. induction page_items as [|item rest IH]; intros acc.
  - by rewrite app_nil_r.
  - simpl. rewrite limit_reached_falsy by done.
    rewrite IH, <- app_assoc. reflexivity.
Qed.

Lemma limit_reached_positive l tracks :
  (0 < l)%Z ->
  limit_reached (Some l) tracks = bool_decide (Z.to_nat l <= length tracks).
Proof.
  intros Hl. unfold limit_reached, truthy_int.
  destruct (Z.eqb_spec l 0); [lia|]. simpl.
  destruct (Z.leb_spec l (Z.of_nat (length tracks)));
    [rewrite bool_decide_eq_true_2|rewrite bool_decide_eq_false_2]; lia.
Qed.

Lemma append_items_positive l acc page_items :
  (0 < l)%Z -> length acc < Z.to_nat l ->
  append_items (Some l) acc page_items
  = acc ++ take (Z.to_nat l - length acc) page_items.
Proof.
  intros Hl. revert acc.
  induction page_items as [|item rest IH]; intros acc Hacc.
  - by rewrite take_nil, app_nil_r.
  - simpl. rewrite limit_reached_positive by done.
    rewrite length_app. simpl.
    destruct (Z.to_nat l - length acc) as [|n] eqn:En; [lia|].
    case_bool_decide as Hr.
    + assert (n = 0) as -> by lia. reflexivity.
    + rewrite IH by (rewrite length_app; simpl; lia).
      rewrite length_app. simpl. rewrite <- app_assoc. simpl.
      do 3 f_equal. lia.
Qed.

Lemma all_items_cons p later :
  all_items (Returned p :: later) = items p ++ all_items later.
Proof. reflexivity. Qed.

(** Without a limit every page is fetched, and nothing after the last. *)
Lemma saved_tracks_loop_unlimited responses acc calls :
  well_paged responses ->
  saved_tracks_loop None responses acc calls
  = (Returned (acc ++ all_items responses),
     calls + max 1 (length responses)).
Proof.
  revert acc calls.
  induction responses as [|[p|] later IH]; intros acc calls Hwf; simpl.
  - rewrite app_nil_r. f_equal. lia.
  - destruct Hwf as (Hne & Hnext & Hwf). rewrite all_items_cons.
    rewrite append_items_falsy by done.
    destruct (items p) as [|i its] eqn:Ei; [done|]. simpl negb. cbv iota.
    rewrite Hnext, orb_false_r. destruct later as [|r later'].
    + simpl. unfold all_items. simpl. rewrite app_nil_r. f_equal. lia.
    + simpl negb. cbv iota. rewrite IH by done.
      rewrite <- app_assoc. f_equal. simpl. lia.
  - done.
Qed.

(** With a positive limit the loop stops at the page that fills it. *)
Lemma saved_tracks_loop_limited l responses acc calls :
  (0 < l)%Z -> well_paged responses -> length acc < Z.to_nat l ->
  exists k,
    saved_tracks_loop (Some l) responses acc calls
    = (Returned (acc ++ take (Z.to_nat l - length acc) (all_items responses)),
       calls + k)
    /\ 1 <= k <= max 1 (length responses)
    /\ length (all_items (take (k - 1) responses)) < Z.to_nat l - length acc.
Proof.
  intros Hl. revert acc calls.
  induction responses as [|[p|] later IH]; intros acc calls Hwf Hacc.
  - exists 1. change (all_items []) with (@nil track).
    rewrite take_nil, app_nil_r. simpl.
    split; [f_equal; lia|]. split; lia.
  - destruct Hwf as (Hne & Hnext & Hwf). rewrite all_items_cons.
    cbn [saved_tracks_loop].
    rewrite append_items_positive by done.
    replace (negb (truthy_list (items p))) with false
      by (by destruct (items p)).
    rewrite limit_reached_positive by done.
    rewrite length_app, length_take.
    case_bool_decide as Hr.
    + rewrite orb_true_r. exists 1. split; [|split].
      * do 3 f_equal; [|lia]. rewrite take_app_le by lia. reflexivity.
      * simpl. lia.
      * change (all_items (take (1 - 1) (Returned p :: later)))
          with (@nil track). simpl. lia.
    + rewrite orb_false_r.
      assert (Hshort : length (items p) < Z.to_nat l - length acc) by lia.
      rewrite (take_ge (items p)) by lia.
      rewrite Hnext. destruct later as [|r later'].
      * exists 1. change (all_items []) with (@nil track).
        rewrite !app_nil_r. split; [|split].
        -- simpl. do 3 f_equal; [|lia]. rewrite take_ge by lia. reflexivity.
        -- simpl. lia.
        -- change (all_items (take (1 - 1) [Returned p])) with (@nil track).
           simpl. lia.
      * cbn [truthy_list negb]. cbv iota.
        destruct (IH (acc ++ items p) (S calls) Hwf) as (k & E & Hk & Hlt).
        { rewrite length_app. lia. }
        exists (S k). rewrite E, length_app. split; [|split].
        -- f_equal; [|lia]. rewrite <- app_assoc. do 3 f_equal.
           rewrite take_app_ge by lia. f_equal. f_equal. lia.
        -- simpl in *. lia.
        -- destruct k as [|k]; [lia|].
           replace (S (S k) - 1) with (S k) by lia.
           replace (S k - 1) with k in Hlt by lia.
           cbn [take]. rewrite all_items_cons, length_app.
           rewrite length_app in Hlt. lia.
  - done.
Qed.

(** C7, at the failing input: with [limit = 0] on a library of three saved
    tracks, [get_saved_tracks] fetches both pages and returns all three
    tracks, where the claim, like the docstring ("limit: Maximum number of
    tracks to fetch (None = all)"), asks for min(3, 0) = 0 of them. *)
Lemma limit_zero_returns_everything :
  get_saved_tracks Sample.catalog (Some 0%Z)
  = (Returned [Sample.song_1994; Sample.song_2005; Sample.local_file], 2)
  /\ length (all_items (saved_pages Sample.catalog)) `min` Z.to_nat 0 = 0.
Proof. vm_compute. split; reflexivity. Qed.

(** X21: for every page-fetch sequence that serves a collection in
    non-empty pages chained by their next links, and a limit that is absent
    or positive, [get_saved_tracks] returns exactly min(total items, limit
    or infinity) items, a prefix of the items in page order; it fetches at
    least one page and none beyond the last, and with a limit every fetch
    it issues is issued while the pages fetched before hold fewer items
    than the limit.  When the first page has no items the result is the
    empty sequence, after that one fetch and without error. *)
Theorem paginator_returns_capped_prefix sp limit :
  well_paged (saved_pages sp) ->
  (forall l, limit = Some l -> (0 < l)%Z) ->
  let total := all_items (saved_pages sp) in
  let n := match limit with
           | Some l => length total `min` Z.to_nat l
           | None => length total
           end in
  (exists calls,
     get_saved_tracks sp limit = (Returned (take n total), calls)
     /\ length (take n total) = n
     /\ 1 <= calls <= max 1 (length (saved_pages sp))
     /\ (forall l, limit = Some l ->
           length (all_items (take (calls - 1) (saved_pages sp)))
           < Z.to_nat l))
  /\ (forall sp',
        (saved_pages sp' = [] \/
         exists nx later, saved_pages sp' = Returned (Page [] nx) :: later) ->
        get_saved_tracks sp' limit = (Returned [], 1)).
Proof.
  intros Hwf Hpos total n. split.
  - unfold get_saved_tracks. destruct limit as [l|].
    + pose proof (Hpos l eq_refl) as Hl.
      destruct (saved_tracks_loop_limited l (saved_pages sp) [] 0 Hl Hwf)
        as (k & E & Hk & Hlt); [simpl; lia|].
      rewrite E. simpl in *. rewrite Nat.sub_0_r in *. fold total.
      exists k. unfold truthy_int. destruct (Z.eqb_spec l 0); [lia|].
      simpl. unfold slice_to. destruct (Z.ltb_spec l 0); [lia|].
      rewrite take_take, Nat.min_id. unfold n.
      assert (Ht : take (Z.to_nat l) total
                   = take (length total `min` Z.to_nat l) total).
      { destruct (Nat.le_ge_cases (length total) (Z.to_nat l)).
        - rewrite Nat.min_l by done. by rewrite !take_ge by lia.
        - by rewrite Nat.min_r by done. }
      rewrite Ht. repeat split; try lia.
      * rewrite length_take. lia.
      * intros l' [= <-]. done.
    + rewrite saved_tracks_loop_unlimited by done. simpl. fold total.
      exists (max 1 (length (saved_pages sp))). unfold n.
      rewrite take_ge by done. repeat split; try lia. done.
  - intros sp' Hempty. unfold get_saved_tracks.
    assert (E : saved_tracks_loop limit (saved_pages sp') [] 0
                = (Returned [], 1)).
    { destruct Hempty as [->|(nx & later & ->)]; reflexivity. }
    rewrite E. destruct limit as [l|]; [|done].
    destruct (truthy_int (Some l)); [|done].
    unfold slice_to. destruct (l <? 0)%Z; by rewrite take_nil.
Qed.

Lemma paginator_returns_capped_prefix_witness :
  exists calls,
    get_saved_tracks Sample.catalog (Some 2%Z)
    = (Returned [Sample.song_1994; Sample.song_2005], calls)
    /\ 1 <= calls <= 2.
Proof.
  destruct (paginator_returns_capped_prefix Sample.catalog (Some 2%Z))
    as ((calls & E & _ & Hc & _) & _).
  - vm_compute. repeat split; discriminate.
  - intros l [= <-]. reflexivity.
  - exists calls. split; [exact E|exact Hc].
Defined.

End Paginator.

(** ** The deduplicator *)

Section Deduplicator.
Import Py LibraryAnalyzer.

Lemma first_by_app {A K} `{EqDecision K} (key : A -> K) (l1 l2 : list A) :
  first_by key (l1 ++ l2)
  = first_by key l1
    ++ filter (fun y => key y ∉ key <$> l1) (first_by key l2).
Proof.
  induction l1 as [|x l1 IH]; simpl.
  - induction (first_by key l2) as [|y l IHl]; [done|].
    rewrite filter_cons_True by apply not_elem_of_nil. by rewrite <- IHl.
  - f_equal. rewrite IH, filter_app. f_equal.
    rewrite list_filter_filter. apply list_filter_iff.
    intros y. rewrite not_elem_of_cons. tauto.
Qed.

Lemma first_by_snoc {A K} `{EqDecision K} (key : A -> K) (l : list A) x :
  first_by key (l ++ [x])
  = if decide (key x ∈ key <$> l) then first_by key l
    else first_by key l ++ [x].
Proof.
  rewrite first_by_app. simpl. rewrite filter_nil.
  destruct (decide (key x ∈ key <$> l)).
  - rewrite filter_cons_False by tauto. by rewrite app_nil_r.
  - by rewrite filter_cons_True.
Qed.

Lemma tracks_so_far_step met all_tracks seen t :
  tracks_so_far met all_tracks seen ->
  if decide (track_id t ∈ seen)
  then tracks_so_far (met ++ [t]) all_tracks seen
  else tracks_so_far (met ++ [t]) (all_tracks ++ [t]) ({[track_id t]} ∪ seen).
Proof.
  intros [-> Hseen]. destruct (decide (track_id t ∈ seen)) as [Hin|Hnin].
  - split.
    + rewrite first_by_snoc. apply Hseen in Hin. by rewrite decide_True.
    + intros i. rewrite fmap_app, elem_of_app, <- Hseen. simpl.
      rewrite list_elem_of_singleton. split; [tauto|]. by intros [?| ->].
  - split.
    + rewrite first_by_snoc. rewrite Hseen in Hnin. by rewrite decide_False.
    + intros i. rewrite fmap_app, elem_of_app, <- Hseen. simpl.
      rewrite list_elem_of_singleton, elem_of_union, elem_of_singleton.
      tauto.
Qed.

Lemma add_unseen_spec new_tracks met all_tracks seen :
  tracks_so_far met all_tracks seen ->
  tracks_so_far (met ++ new_tracks)
    (add_unseen new_tracks all_tracks seen).1
    (add_unseen new_tracks all_tracks seen).2.
Proof.
  revert met all_tracks seen.
  induction new_tracks as [|t rest IH]; intros met all_tracks seen Hinv.
  - by rewrite app_nil_r.
  - cbn [add_unseen].
    pose proof (tracks_so_far_step _ _ _ t Hinv) as Hstep.
    replace (met ++ t :: rest) with ((met ++ [t]) ++ rest)
      by (by rewrite <- app_assoc).
    destruct (decide (track_id t ∈ seen)); by apply IH.
Qed.

Lemma add_unseen_items_spec page_items met all_tracks seen :
  tracks_so_far met all_tracks seen ->
  tracks_so_far (met ++ omap (fun o => o) page_items)
    (add_unseen_items page_items all_tracks seen).1
    (add_unseen_items page_items all_tracks seen).2.
Proof.
  revert met all_tracks seen.
  induction page_items as [|[t|] rest IH]; intros met all_tracks seen Hinv.
  - by rewrite app_nil_r.
  - change (omap (fun o => o) (Some t :: rest))
      with (t :: omap (fun o : option track => o) rest).
    cbn [add_unseen_items].
    pose proof (tracks_so_far_step _ _ _ t Hinv) as Hstep.
    replace (met ++ t :: omap (fun o => o) rest)
      with ((met ++ [t]) ++ omap (fun o => o) rest)
      by (by rewrite <- app_assoc).
    destruct (decide (track_id t ∈ seen)); by apply IH.
  - change (omap (fun o => o) (None :: rest))
      with (omap (fun o : option track => o) rest).
    cbn [add_unseen_items]. by apply IH.
Qed.

Lemma playlist_pages_loop_spec responses met all_tracks seen :
  tracks_so_far met all_tracks seen ->
  tracks_so_far (met ++ visible_items responses)
    (playlist_pages_loop responses all_tracks seen).1
    (playlist_pages_loop responses all_tracks seen).2.
Proof.
  revert met all_tracks seen.
  induction responses as [|[p|] later IH]; intros met all_tracks seen Hinv;
    simpl; try by rewrite app_nil_r.
  pose proof (add_unseen_items_spec (items p) _ _ _ Hinv) as Hpage.
  destruct (add_unseen_items (items p) all_tracks seen) as [a s].
  destruct (next p).
  - rewrite app_assoc. by apply IH.
  - by rewrite app_nil_r.
Qed.

Lemma playlists_loop_spec sp playlist_ids met all_tracks seen :
  tracks_so_far met all_tracks seen ->
  playlists_loop sp playlist_ids all_tracks seen
  = first_by track_id (met ++ concat (source_tracks sp <$> playlist_ids)).
Proof.
  revert met all_tracks seen.
  induction playlist_ids as [|playlist_id rest IH];
    intros met all_tracks seen Hinv; simpl.
  - rewrite app_nil_r. apply Hinv.
  - rewrite app_assoc. unfold source_tracks at 1.
    destruct (String.eqb playlist_id "liked_songs").
    + destruct (get_saved_tracks sp None) as [[liked|] calls].
      * pose proof (add_unseen_spec liked _ _ _ Hinv) as Hl.
        destruct (add_unseen liked all_tracks seen) as [a s].
        by apply IH.
      * rewrite app_nil_r. by apply IH.
    + pose proof (playlist_pages_loop_spec (playlist_pages sp playlist_id)
                    _ _ _ Hinv) as Hp.
      destruct (playlist_pages_loop _ all_tracks seen) as [a s].
      by apply IH.
Qed.

(** C8: for every ordered list of sources (playlists and the liked-songs
    pseudo-playlist), the combined output is the first-seen selection of
    the tracks the sources yield, in source order: no track identity occurs
    twice in it, every identity that some source yields occurs in it, and a
    track whose identity was met before is dropped; the function always
    returns its list. *)
Theorem deduplicator_first_seen sp playlist_ids :
  let yielded := concat (source_tracks sp <$> playlist_ids) in
  let combined := get_tracks_from_playlists sp playlist_ids in
  combined = first_by track_id yielded
  /\ NoDup (track_id <$> combined)
  /\ (forall i, i ∈ track_id <$> combined <-> i ∈ track_id <$> yielded)
  /\ combined `sublist_of` yielded.
Proof.
  intros yielded combined.
  assert (E : combined = first_by track_id yielded).
  { unfold combined, get_tracks_from_playlists.
    rewrite (playlists_loop_spec sp playlist_ids [] [] ∅); [done|].
    split; [done|]. intros i. simpl. set_solver. }
  rewrite E. split; [done|]. split; [apply first_by_NoDup|].
  split; [apply first_by_keys_subset|].
  clear. induction yielded as [|t l IH]; simpl; [done|].
  apply sublist_skip. etrans; [apply sublist_filter|done].
Qed.

End Deduplicator.

(** ** Mood thresholds: classification and filter *)

Section Moods.
Import Py LibraryAnalyzer.

Lemma gt_spec (x y : Q) : gt x y = true <-> (y < x)%Q.
Proof.
  unfold gt. rewrite negb_true_iff, <- not_true_iff_false, Qle_bool_iff.
  split; [apply Qnot_le_lt|apply Qlt_not_le].
Qed.

Lemma lt_spec (x y : Q) : lt x y = true <-> (x < y)%Q.
Proof. unfold lt. apply gt_spec. Qed.

Lemma classified_spec m f : classified m f = true <-> mood_threshold m f.
Proof.
  destruct m; simpl; rewrite andb_true_iff, ?gt_spec, ?lt_spec; tauto.
Qed.

Lemma mood_pass_spec m f :
  m <> Chill -> mood_pass (lower (mood_label m)) f = classified m f.
Proof.
  intros Hm. unfold mood_pass.
  destruct m; try done; simpl;
    repeat match goal with
           | |- context [gt ?x ?y] => destruct (gt x y)
           | |- context [lt ?x ?y] => destruct (lt x y)
           end; reflexivity.
Qed.

Lemma bucket_dict_append label k t (d : dict string (list track)) :
  bucket label (dict_append k t d)
  = if decide (label = k) then bucket label d ++ [t] else bucket label d.
Proof.
  unfold bucket. induction d as [|[k' l] d IH]; simpl.
  - by destruct (decide (label = k)).
  - destruct (decide (k = k')) as [->|Hne]; simpl.
    + by destruct (decide (label = k')).
    + destruct (decide (label = k')) as [->|Hne'].
      * by rewrite decide_False by done.
      * apply IH.
Qed.

Lemma dict_get_append_present label k t (d : dict string (list track)) :
  is_Some (dict_get label d) -> is_Some (dict_get label (dict_append k t d)).
Proof.
  induction d as [|[k' l] d IH]; simpl; [by intros []|].
  destruct (decide (k = k')) as [->|Hne]; simpl;
    destruct (decide (label = k')); eauto.
Qed.

Lemma bucket_append_if label cond k t d :
  bucket label (append_if cond k t d)
  = bucket label d ++ (if cond && bool_decide (label = k) then [t] else []).
Proof.
  unfold append_if. destruct cond; simpl; [|by rewrite app_nil_r].
  rewrite bucket_dict_append. case_bool_decide.
  - by rewrite decide_True.
  - rewrite decide_False by done. by rewrite app_nil_r.
Qed.

Lemma present_append_if label cond k t d :
  is_Some (dict_get label d) -> is_Some (dict_get label (append_if cond k t d)).
Proof.
  unfold append_if. destruct cond; [apply dict_get_append_present|done].
Qed.

(** What [classify_track] does to the bucket of each mood. *)
Lemma bucket_classify_track m f t d :
  bucket (mood_label m) (classify_track f t d)
  = bucket (mood_label m) d ++ (if classified m f then [t] else []).
Proof.
  unfold classify_track. rewrite !bucket_append_if, <- !app_assoc. f_equal.
  destruct m; simpl; rewrite ?andb_false_r, ?andb_true_r; simpl;
    by rewrite ?app_nil_r.
Qed.

Lemma present_classify_track label f t d :
  is_Some (dict_get label d) -> is_Some (dict_get label (classify_track f t d)).
Proof. intros H. unfold classify_track. by repeat apply present_append_if. Qed.

Lemma mood_loop_bucket m (fd : gmap string features) tracks d :
  bucket (mood_label m)
    (foldl (fun d t => match fd !! track_id t with
                       | Some f => classify_track f t d
                       | None => d
                       end) d tracks)
  = bucket (mood_label m) d
    ++ List.filter (fun t => match fd !! track_id t with
                             | Some f => classified m f
                             | None => false
                             end) tracks.
Proof.
  revert d. induction tracks as [|t rest IH]; intros d; simpl.
  - by rewrite app_nil_r.
  - rewrite IH. destruct (fd !! track_id t) as [f|]; [|done].
    rewrite bucket_classify_track, <- app_assoc.
    by destruct (classified m f).
Qed.

Lemma mood_loop_present label (fd : gmap string features) tracks d :
  is_Some (dict_get label d) ->
  is_Some (dict_get label
             (foldl (fun d t => match fd !! track_id t with
                                | Some f => classify_track f t d
                                | None => d
                                end) d tracks)).
Proof.
  revert d. induction tracks as [|t rest IH]; intros d Hd; simpl; [done|].
  apply IH. destruct (fd !! track_id t); [|done].
  by apply present_classify_track.
Qed.

(** C6, counterexample: the track "t3" has features and satisfies the Chill
    thresholds; classification puts it in the Chill bucket, the filter with
    mood "chill" rejects it. *)
Lemma chill_filter_rejects_chill_track :
  let fd := feature_dict_of
              (get_audio_features Sample.catalog
                 (track_id <$> [Sample.local_file])) in
  (exists f, fd !! track_id Sample.local_file = Some f
             /\ mood_threshold Chill f)
  /\ dict_get "Chill" (analyze_library_by_mood Sample.catalog
                         [Sample.local_file]) = Some [Sample.local_file]
  /\ filter_tracks Sample.catalog [Sample.local_file] None (Some "chill")
       None None None = [].
Proof.
  split; [|split]; [|vm_compute; reflexivity..].
  exists (Features "t3" 0.5 0.1 0.3 0.9 110). split.
  - vm_compute. reflexivity.
  - apply classified_spec. vm_compute. reflexivity.
Qed.

(** C6, amended: for each of the five moods the filter knows (happy, sad,
    energetic, calm and party, in any letter case), the filter's mood
    predicate uses the thresholds of whole-library mood classification: the
    tracks it lets through are those of that mood's bucket, and a track with
    resolvable audio features passes if and only if its features satisfy
    that mood's threshold predicate. *)
Theorem mood_filter_matches_classification sp tracks m mood_arg :
  m <> Chill ->
  lower mood_arg = lower (mood_label m) ->
  let passed := filter_tracks sp tracks None (Some mood_arg) None None None in
  let feature_dict :=
    feature_dict_of (get_audio_features sp (track_id <$> tracks)) in
  dict_get (mood_label m) (analyze_library_by_mood sp tracks) = Some passed
  /\ forall t,
       t ∈ passed
       <-> t ∈ tracks
           /\ exists f,
               feature_dict !! track_id t = Some f /\ mood_threshold m f.
Proof.
  intros Hm Hlow passed feature_dict.
  assert (Hpassed : passed
    = List.filter (fun t => match feature_dict !! track_id t with
                            | Some f => classified m f
                            | None => false
                            end) tracks).
  { unfold passed, filter_tracks. simpl.
    assert (Ht : truthy_str (Some mood_arg) = true).
    { destruct mood_arg; [by destruct m|done]. }
    simpl in Ht. rewrite Ht. unfold filter_by_mood. fold feature_dict.
    apply List.filter_ext. intros t.
    destruct (feature_dict !! track_id t) as [f|]; [|done].
    rewrite Hlow. by apply mood_pass_spec. }
  split.
  - rewrite Hpassed. unfold analyze_library_by_mood. fold feature_dict.
    set (start := [("Happy", []); ("Sad", []); ("Energetic", []);
                   ("Calm", []); ("Party", []); ("Chill", [])]
                  : dict string (list track)).
    pose proof (mood_loop_bucket m feature_dict tracks start) as Hb.
    pose proof (mood_loop_present (mood_label m) feature_dict tracks start)
      as Hp.
    destruct Hp as [l Hl]; [by destruct m; vm_compute; eauto|].
    unfold bucket in Hb. rewrite Hl in *. simpl in Hb. rewrite Hb.
    by destruct m.
  - intros t. rewrite Hpassed, list_elem_of_In, filter_In, <- list_elem_of_In.
    split.
    + intros [Hin Hc]. split; [done|].
      destruct (feature_dict !! track_id t) as [f|]; [|done].
      exists f. split; [done|]. by apply classified_spec.
    + intros [Hin (f & Hf & Ht)]. split; [done|].
      rewrite Hf. by apply classified_spec.
Qed.

Lemma mood_filter_matches_classification_witness :
  dict_get "Happy" (analyze_library_by_mood Sample.catalog
                      [Sample.song_1994; Sample.song_2005; Sample.undated])
  = Some (filter_tracks Sample.catalog
            [Sample.song_1994; Sample.song_2005; Sample.undated]
            None (Some "HAPPY") None None None).
Proof.
  destruct (mood_filter_matches_classification Sample.catalog
              [Sample.song_1994; Sample.song_2005; Sample.undated]
              Happy "HAPPY") as [E _].
  - discriminate.
  - reflexivity.
  - exact E.
Defined.

End Moods.

(** * Further properties of the playlist manager *)

Section WritingTracks.
Import Py PlaylistManager.

Lemma batches_of_length (track_uris : list string) :
  length (batches_of track_uris) = (length track_uris + 99) / 100.
Proof.
  unfold batches_of, range_step, batch_size.
  rewrite !length_fmap, length_seq. f_equal. lia.
Qed.

Lemma batches_of_lookup (track_uris : list string) j :
  j < (length track_uris + 99) / 100 ->
  batches_of track_uris !! j = Some (take 100 (drop (j * 100) track_uris)).
Proof.
  intros Hj. unfold batches_of, range_step, batch_size.
  rewrite !list_lookup_fmap, lookup_seq_lt; [done|].
  replace (length track_uris + 100 - 1) with (length track_uris + 99) by lia.
  done.
Qed.

(** X1: the URIs are cut into ceil(n / 100) batches; batch [j] holds the
    URIs from position [100 j] on, 100 of them or what is left, and no
    batch is empty. *)
Theorem batches_of_shape (track_uris : list string) j batch :
  batches_of track_uris !! j = Some batch ->
  length (batches_of track_uris) = (length track_uris + 99) / 100
  /\ batch = take 100 (drop (j * 100) track_uris)
  /\ length batch = 100 `min` (length track_uris - j * 100)
  /\ 0 < length batch.
Proof.
  intros Hb. pose proof (lookup_lt_Some _ _ _ Hb) as Hj.
  rewrite batches_of_length in Hj.
  rewrite batches_of_lookup in Hb by done. injection Hb as <-.
  split; [apply batches_of_length|]. split; [done|].
  rewrite length_take, length_drop.
  pose proof (Nat.div_mod_eq (length track_uris + 99) 100) as E.
  pose proof (Nat.mod_upper_bound (length track_uris + 99) 100).
  split; lia.
Qed.

Lemma batches_of_shape_witness :
  length (batches_of Sample.uris250) = 3
  /\ length (take 100 (drop 200 Sample.uris250)) = 50.
Proof.
  destruct (batches_of_shape Sample.uris250 2
              (take 100 (drop 200 Sample.uris250)))
    as (Hn & _ & Hl & _).
  - vm_compute. reflexivity.
  - split; [rewrite Hn; reflexivity|rewrite Hl; reflexivity].
Defined.

Lemma add_batches_all sp playlist_id batches tr :
  (forall j batch, batches !! j = Some batch ->
     playlist_add_items sp (written playlist_id batches j tr)
       playlist_id batch = true) ->
  add_batches sp playlist_id batches tr
  = (Returned (), written playlist_id batches (length batches) tr).
Proof.
  revert tr. induction batches as [|batch rest IH]; intros tr Hok.
  - unfold written. simpl. by rewrite app_nil_r.
  - simpl. pose proof (Hok 0 batch eq_refl) as H0.
    unfold written in H0. simpl in H0. rewrite app_nil_r in H0.
    rewrite H0, written_cons. apply IH.
    intros j b Hb. rewrite <- written_cons. by apply (Hok (S j)).
Qed.

(** X2: when every write call returns, [add_tracks_to_playlist] on a
    non-empty list returns [True] after exactly ceil(n / 100) write calls,
    the batches in order, and the playlist then holds the given URIs, in
    order, after what it held before. *)
Theorem add_tracks_all_written sp playlist_id track_uris tr :
  track_uris <> [] ->
  (forall j batch, batches_of track_uris !! j = Some batch ->
     playlist_add_items sp
       (written playlist_id (batches_of track_uris) j tr)
       playlist_id batch = true) ->
  exists tr',
    add_tracks_to_playlist sp playlist_id track_uris tr = (true, tr')
    /\ tr' = tr ++ ((fun batch => EvAdd playlist_id batch true)
                      <$> batches_of track_uris)
    /\ length (writes tr') = length (writes tr) + (length track_uris + 99) / 100
    /\ playlist_content playlist_id tr'
       = playlist_content playlist_id tr ++ track_uris.
Proof.
  intros Hne Hok. eexists. split; [|split; [reflexivity|split]].
  - unfold add_tracks_to_playlist.
    destruct track_uris as [|u us]; [done|]. simpl negb. cbv iota.
    rewrite add_batches_all by done. unfold written.
    by rewrite firstn_all.
  - rewrite writes_app, length_app, writes_written, length_fmap.
    by rewrite batches_of_length.
  - rewrite playlist_content_app, playlist_content_written.
    by rewrite batches_of_concat.
Qed.

Lemma add_tracks_all_written_witness :
  exists tr',
    add_tracks_to_playlist Sample.all_ok "p1" Sample.uris250 [] = (true, tr')
    /\ length (writes tr') = 3
    /\ playlist_content "p1" tr' = Sample.uris250.
Proof.
  destruct (add_tracks_all_written Sample.all_ok "p1" Sample.uris250 [])
    as (tr' & E & _ & Hn & Hc).
  - discriminate.
  - reflexivity.
  - exists tr'. split; [exact E|]. split; [rewrite Hn|rewrite Hc]; reflexivity.
Defined.

(** X3: [create_custom_playlist] always issues the creation call first; it
    returns the new id exactly when the creation returned and at least one
    track has a URI, whether or not the writes then succeed.  When no track
    has a URI it returns [None] although the playlist was created, and it
    issues no write call. *)
Theorem create_custom_playlist_result
  sp name tracks description public tr :
  let result := user_playlist_create sp tr name description public in
  let out := create_custom_playlist sp name tracks description public tr in
  out.1 = (if truthy_list (writable_uris tracks) then result else None)
  /\ (exists evs,
        out.2 = tr ++ EvCreate name description public result :: evs
        /\ only_writes evs
        /\ (writable_uris tracks = [] -> evs = []))
  /\ (result = None -> out.2 = tr ++ [EvCreate name description public None]).
Proof.
  intros result out. unfold out, create_custom_playlist, create_playlist.
  fold result. destruct result as [p|].
  - destruct (writable_uris tracks) as [|u us] eqn:Eu; simpl.
    + split; [done|]. split; [|done]. exists []. by repeat split.
    + destruct (add_tracks_trace sp p (u :: us)
                  (tr ++ [EvCreate name description public (Some p)]))
        as (evs & E & H).
      destruct (add_tracks_to_playlist _ _ _ _) as [b tr2].
      simpl in E. subst tr2. split; [done|]. split; [|done].
      exists evs. simpl. rewrite <- app_assoc.
      split; [done|]. split; [exact H|done].
  - split; [by destruct (truthy_list _)|]. split; [|done].
    exists []. by repeat split.
Qed.

Lemma create_custom_playlist_result_witness :
  create_custom_playlist Sample.all_ok "Mine" [Sample.local_file] "" false []
  = (None, [EvCreate "Mine" "" false (Some "id of Mine")]).
Proof.
  destruct (create_custom_playlist_result Sample.all_ok "Mine"
              [Sample.local_file] "" false [])
    as (E1 & (evs & E2 & _ & Hev) & _).
  rewrite (Hev eq_refl) in E2.
  destruct (create_custom_playlist _ _ _ _ _ _) as [o tr'].
  simpl in E1, E2. by rewrite E1, E2.
Defined.

End WritingTracks.

Section WriteTargets.
Import Py PlaylistManager.

Lemma add_batches_events sp playlist_id batches tr :
  exists evs,
    (add_batches sp playlist_id batches tr).2 = tr ++ evs
    /\ Forall (fun e => exists batch ok,
                 e = EvAdd playlist_id batch ok /\ batch ∈ batches) evs.
Proof.
  revert tr. induction batches as [|b bs IH]; intros tr; simpl.
  - exists []. by rewrite app_nil_r.
  - destruct (playlist_add_items sp tr playlist_id b).
    + destruct (IH (tr ++ [EvAdd playlist_id b true])) as (evs & -> & Hall).
      exists (EvAdd playlist_id b true :: evs). rewrite <- app_assoc.
      split; [done|]. constructor.
      * exists b, true. split; [done|]. by left.
      * eapply Forall_impl; [exact Hall|].
        intros e (batch & ok & -> & Hin). exists batch, ok.
        split; [done|]. by right.
    + exists [EvAdd playlist_id b false]. split; [done|].
      constructor; [|done]. exists b, false. split; [done|]. by left.
Qed.

Lemma create_and_fill_events sp name description public tracks tr :
  let result := user_playlist_create sp tr name description public in
  exists adds,
    (create_and_fill sp name description public tracks tr).2
    = tr ++ EvCreate name description public result :: adds
    /\ Forall (fun e => exists playlist_id batch ok,
                 result = Some playlist_id
                 /\ e = EvAdd playlist_id batch ok
                 /\ batch ∈ batches_of (writable_uris tracks)) adds.
Proof.
  intros result. unfold create_and_fill, create_playlist. fold result.
  destruct result as [p|]; [|by exists []].
  unfold add_tracks_to_playlist.
  destruct (negb (truthy_list (writable_uris tracks))).
  - exists []. split; [done|constructor].
  - destruct (add_batches_events sp p (batches_of (writable_uris tracks))
                (tr ++ [EvCreate name description public (Some p)]))
      as (evs & E & Hall).
    exists evs. split.
    + destruct (add_batches _ _ _ _) as [[] tr2]; simpl in *; subst tr2;
        by rewrite <- app_assoc.
    + eapply Forall_impl; [exact Hall|].
      intros e (batch & ok & -> & Hin). by exists p, batch, ok.
Qed.

Lemma batch_uri_writable (tracks : list track) batch u :
  batch ∈ batches_of (writable_uris tracks) -> u ∈ batch ->
  u ∈ writable_uris tracks.
Proof.
  intros Hb Hu. rewrite <- (batches_of_concat (writable_uris tracks)).
  apply list_elem_of_In, in_concat. exists batch.
  split; by apply list_elem_of_In.
Qed.

Context {K : Type} `{EqDecision K}.
Variable skip : K -> list track -> bool.
Variable playlist_name : K -> list track -> string.
Variable description : K -> list track -> string.

(** X4: in every [create_*_playlists] method (each is this loop with its
    own guard and naming), a write call only ever targets a playlist whose
    id was returned by an earlier creation call of the same run, and it
    carries at most 100 URIs, each the URI of a track of one of the given
    buckets: no other playlist is written to and no track without a URI is
    sent. *)
Theorem writes_only_to_created_playlists
  sp public (items : dict K (list track)) created tr :
  exists evs,
    (create_loop skip playlist_name description sp public items created
       tr).2 = tr ++ evs
    /\ forall i playlist_id batch ok,
         evs !! i = Some (EvAdd playlist_id batch ok) ->
         (exists j name text,
            j < i
            /\ evs !! j = Some (EvCreate name text public (Some playlist_id)))
         /\ (forall u, u ∈ batch ->
               exists kv, kv ∈ items /\ u ∈ writable_uris kv.2)
         /\ length batch <= 100.
Proof.
  revert created tr.
  induction items as [|[k ts] items IH]; intros created tr.
  - exists []. simpl. rewrite app_nil_r. split; [done|]. by intros [].
  - simpl. destruct (skip k ts).
    + destruct (IH created tr) as (evs & E & Hp). exists evs.
      split; [done|]. intros i p batch ok Hi.
      destruct (Hp i p batch ok Hi) as (Hc & Hu & Hl).
      split; [done|]. split; [|done].
      intros u Hin. destruct (Hu u Hin) as (kv & Hkv & Hw).
      exists kv. split; [by right|done].
    + destruct (create_and_fill_events sp (playlist_name k ts)
                  (description k ts) public ts tr) as (adds & E & Hadds).
      set (result := user_playlist_create sp tr (playlist_name k ts)
                       (description k ts) public) in *.
      set (first := EvCreate (playlist_name k ts) (description k ts) public
                      result) in *.
      assert (Hgo : forall created',
        exists evs,
          (create_loop skip playlist_name description sp public items
             created' (tr ++ first :: adds)).2 = tr ++ evs
          /\ forall i playlist_id batch ok,
               evs !! i = Some (EvAdd playlist_id batch ok) ->
               (exists j name text,
                  j < i
                  /\ evs !! j
                     = Some (EvCreate name text public (Some playlist_id)))
               /\ (forall u, u ∈ batch ->
                     exists kv, kv ∈ (k, ts) :: items
                                /\ u ∈ writable_uris kv.2)
               /\ length batch <= 100).
      { intros created'.
        destruct (IH created' (tr ++ first :: adds)) as (evs & E' & Hp).
        exists ((first :: adds) ++ evs). split.
        { rewrite E'. by rewrite <- !app_assoc. }
        intros i p batch ok Hi.
        apply lookup_app_Some in Hi as [Hi|[Hge Hi]].
        - destruct i as [|i]; [done|]. simpl in Hi.
          apply list_elem_of_lookup_2 in Hi.
          rewrite Forall_forall in Hadds.
          destruct (Hadds _ Hi) as (p' & b' & ok' & Hr & [= -> -> ->] & Hb).
          split; [|split].
          + exists 0, (playlist_name k ts), (description k ts).
            split; [lia|]. simpl. unfold first. by rewrite Hr.
          + intros u Hu. exists (k, ts). split; [by left|].
            by eapply batch_uri_writable.
          + pose proof (batches_of_size (writable_uris ts)) as Hs.
            rewrite Forall_forall in Hs. apply (Hs _ Hb).
        - destruct (Hp _ p batch ok Hi) as ((j & n & d & Hj & Hc) & Hu & Hl).
          split; [|split; [|done]].
          + exists (length (first :: adds) + j), n, d. split; [lia|].
            rewrite lookup_app_r by lia.
            by replace (length (first :: adds) + j - length (first :: adds))
              with j by lia.
          + intros u Hin. destruct (Hu u Hin) as (kv & Hkv & Hw).
            exists kv. split; [by right|done]. }
      destruct (create_and_fill _ _ _ _ _ _) as [[p|] tr'];
        simpl in E; subst tr'; apply Hgo.
Qed.

End WriteTargets.

Section WriteTargetsExample.
Import Py PlaylistManager.

Lemma writes_only_to_created_playlists_witness :
  exists evs,
    (create_genre_playlists Sample.all_ok [("rock", [Sample.song_1994])]
       "SpotifySort" false []).2 = [] ++ evs
    /\ exists j name text,
         j < 1
         /\ evs !! j
            = Some (EvCreate name text false
                      (Some "id of SpotifySort - Rock")).
Proof.
  destruct (writes_only_to_created_playlists
              (fun _ tracks => negb (truthy_list tracks))
              (fun genre _ => genre_playlist_name "SpotifySort" genre)
              genre_description Sample.all_ok false
              [("rock", [Sample.song_1994])] [] []) as (evs & E & H).
  exists evs. split; [exact E|].
  apply (H 1 "id of SpotifySort - Rock" ["spotify:track:t1"] true).
  vm_compute in E. rewrite <- E. reflexivity.
Defined.

End WriteTargetsExample.

(** * Further properties of the classifications *)

Section Grouping.
Import Py PlaylistManager LibraryAnalyzer.

Lemma dict_get_dict_append {K V} `{EqDecision K} (k k' : K) (x : V)
  (d : dict K (list V)) :
  dict_get k (dict_append k' x d)
  = if decide (k = k') then Some (default [] (dict_get k d) ++ [x])
    else dict_get k d.
Proof.
  induction d as [|[k0 l] d IH]; simpl.
  - by destruct (decide (k = k')).
  - destruct (decide (k' = k0)) as [->|Hne]; simpl.
    + by destruct (decide (k = k0)).
    + destruct (decide (k = k0)) as [->|Hne'].
      * by rewrite decide_False by done.
      * apply IH.
Qed.

Lemma dict_append_nonempty {K V} `{EqDecision K} (k : K) (x : V)
  (d : dict K (list V)) :
  Forall (fun kv => kv.2 <> []) d ->
  Forall (fun kv => kv.2 <> []) (dict_append k x d).
Proof.
  induction d as [|[k' l] d IH]; simpl; intros Hd.
  - by repeat constructor.
  - apply Forall_cons in Hd as [Hl Hd].
    destruct (decide (k = k')); constructor; simpl; try done.
    + by destruct l.
    + by apply IH.
Qed.

Lemma dict_get_absent {K V} `{EqDecision K} (k : K) (d : dict K V) :
  k ∉ keys d -> dict_get k d = None.
Proof.
  induction d as [|[k' v] d IH]; simpl; [done|].
  intros Hk. apply not_elem_of_cons in Hk as [Hne Hk].
  rewrite decide_False by done. by apply IH.
Qed.


Lemma first_by_id_NoDup {A} `{EqDecision A} (l : list A) :
  NoDup (first_by (fun x => x) l).
Proof.
  pose proof (first_by_NoDup (fun x : A => x) l) as H.
  by rewrite list_fmap_id in H.
Qed.

Lemma filter_all {A} (P : A -> Prop) `{forall x, Decision (P x)} (l : list A) :
  (forall x, x ∈ l -> P x) -> filter P l = l.
Proof.
  induction l as [|x l IH]; intros Hall; [done|].
  rewrite filter_cons_True by (apply Hall; by left).
  f_equal. apply IH. intros y Hy. apply Hall. by right.
Qed.

Lemma filter_ext_in {A} (P Q : A -> Prop) `{forall x, Decision (P x)}
  `{forall x, Decision (Q x)} (l : list A) :
  (forall x, x ∈ l -> P x <-> Q x) -> filter P l = filter Q l.
Proof.
  induction l as [|x l IH]; intros Hall; [done|].
  assert (Hx : P x <-> Q x) by (apply Hall; by left).
  assert (Hl : filter P l = filter Q l).
  { apply IH. intros y Hy. apply Hall. by right. }
  destruct (decide (P x)) as [Hp|Hp].
  - rewrite !filter_cons_True by tauto. by rewrite Hl.
  - rewrite !filter_cons_False by tauto. done.
Qed.

(** Filing every element under its key, as the [defaultdict] loops do. *)
Lemma group_keys {A K} `{EqDecision K} (key : A -> K) (l : list A)
  (m : dict K (list A)) :
  keys (foldl (fun m x => dict_append (key x) x m) m l)
  = keys m
    ++ first_by (fun k => k) (filter (fun k => k ∉ keys m) (key <$> l)).
Proof.
  revert m. induction l as [|x l IH]; intros m; simpl.
  - by rewrite app_nil_r.
  - rewrite IH, keys_dict_append.
    destruct (decide (key x ∈ keys m)) as [Hin|Hnin].
    + by rewrite filter_cons_False by (by intros Hn).
    + rewrite filter_cons_True by done. simpl. rewrite <- app_assoc. simpl.
      do 2 f_equal.
      rewrite <- (first_by_filter (fun k : K => k) (fun k => k <> key x)).
      f_equal. rewrite list_filter_filter. apply list_filter_iff.
      intros y. rewrite not_elem_of_app, list_elem_of_singleton. tauto.
Qed.

Lemma group_get {A K} `{EqDecision K} (key : A -> K) (l : list A)
  (m : dict K (list A)) k :
  default [] (dict_get k (foldl (fun m x => dict_append (key x) x m) m l))
  = default [] (dict_get k m) ++ filter (fun x => key x = k) l.
Proof.
  revert m. induction l as [|x l IH]; intros m; simpl.
  - by rewrite app_nil_r.
  - rewrite IH, dict_get_dict_append.
    destruct (decide (k = key x)) as [->|Hne].
    + rewrite filter_cons_True by done. simpl. by rewrite <- app_assoc.
    + by rewrite filter_cons_False by (by intros E).
Qed.

Lemma group_nonempty {A K} `{EqDecision K} (key : A -> K) (l : list A)
  (m : dict K (list A)) :
  Forall (fun kv => kv.2 <> []) m ->
  Forall (fun kv => kv.2 <> [])
    (foldl (fun m x => dict_append (key x) x m) m l).
Proof.
  revert m. induction l as [|x l IH]; intros m Hm; simpl; [done|].
  by apply IH, dict_append_nonempty.
Qed.

Lemma decade_bounds (d y : Z) :
  d = (y / 10 * 10)%Z <-> (d <= y < d + 10)%Z /\ (d mod 10 = 0)%Z.
Proof.
  split.
  - intros ->. pose proof (Z.div_mod y 10 ltac:(lia)).
    pose proof (Z.mod_pos_bound y 10 ltac:(lia)).
    split; [lia|]. apply Z_mod_mult.
  - intros [Hb Hm]. apply Z_div_exact_full_2 in Hm; [|lia].
    assert (y / 10 = d / 10)%Z as ->; [|lia].
    symmetry. apply Z.div_unique with (r := (y - d)%Z); lia.
Qed.

Lemma group_by_decade_get (tracks : list track) m d :
  default [] (dict_get d (group_by_decade tracks m))
  = default [] (dict_get d m)
    ++ filter (fun t => decade_of t = Some d) tracks.
Proof.
  revert m. induction tracks as [|t rest IH]; intros m; simpl.
  - by rewrite app_nil_r.
  - destruct (decade_of t) as [d'|] eqn:Ed.
    + rewrite IH, dict_get_dict_append.
      destruct (decide (d = d')) as [->|Hne].
      * rewrite filter_cons_True by done. simpl. by rewrite <- app_assoc.
      * rewrite filter_cons_False; [done|].
        rewrite Ed. intros [= E]. by apply Hne.
    + rewrite IH. by rewrite filter_cons_False by (by rewrite Ed).
Qed.

(** X5: the decade grouping of [create_decade_playlists] files a track
    under the decade [d] exactly when its release year [y] is present (and
    not 0) with [d <= y < d + 10] and [d] a multiple of 10; each bucket
    keeps the order of the track sequence, and a track without a release
    year is in no bucket. *)
Theorem decade_bucket_contents (tracks : list track) (d : Z) :
  let decade_tracks :=
    default [] (dict_get d (group_by_decade tracks [])) in
  decade_tracks = filter (fun t => decade_of t = Some d) tracks
  /\ (forall t,
        t ∈ decade_tracks
        <-> t ∈ tracks
            /\ exists y, release_year t = Some y /\ y <> 0%Z
                         /\ (d <= y < d + 10)%Z /\ (d mod 10 = 0)%Z)
  /\ (forall t, release_year t = None -> t ∉ decade_tracks).
Proof.
  intros decade_tracks.
  assert (E : decade_tracks = filter (fun t => decade_of t = Some d) tracks).
  { unfold decade_tracks. by rewrite group_by_decade_get. }
  assert (Hd : forall t,
    decade_of t = Some d
    <-> exists y, release_year t = Some y /\ y <> 0%Z
                  /\ (d <= y < d + 10)%Z /\ (d mod 10 = 0)%Z).
  { intros t. unfold decade_of, truthy_int.
    destruct (release_year t) as [y|].
    - destruct (Z.eqb_spec y 0); simpl.
      + split; [done|]. intros (y' & [= <-] & Hy & _). done.
      + split.
        * intros [= <-]. exists y. split; [done|]. split; [done|].
          by apply decade_bounds.
        * intros (y' & [= <-] & _ & Hb). f_equal. symmetry.
          by apply decade_bounds.
    - split; [done|]. by intros (y & [=] & _). }
  split; [done|]. rewrite E. split.
  - intros t. rewrite list_elem_of_filter, Hd. tauto.
  - intros t Hy. rewrite list_elem_of_filter, Hd.
    intros [(y & Hy' & _) _]. congruence.
Qed.

Lemma decade_bucket_contents_witness :
  default [] (dict_get 1990%Z
                (group_by_decade
                   [Sample.song_2005; Sample.song_1994; Sample.undated;
                    Sample.local_file] []))
  = [Sample.song_1994; Sample.local_file].
Proof.
  destruct (decade_bucket_contents
              [Sample.song_2005; Sample.song_1994; Sample.undated;
               Sample.local_file] 1990%Z) as (E & _).
  rewrite E. reflexivity.
Defined.

Lemma artist_loop_spec (tracks : list track) m :
  Forall (fun t => artists t <> []) tracks ->
  artist_loop tracks m
  = Returned (foldl (fun m t => dict_append
                                  (default "" (primary_name t)) t m)
                m tracks).
Proof.
  revert m. induction tracks as [|t rest IH]; intros m Hall; simpl; [done|].
  apply Forall_cons in Hall as [Ht Hrest]. unfold primary_name.
  destruct (artists t) as [|primary others]; [done|]. simpl.
  by apply IH.
Qed.

Lemma artist_loop_raises (tracks : list track) m :
  Exists (fun t => artists t = []) tracks -> artist_loop tracks m = Raised.
Proof.
  revert m. induction tracks as [|t rest IH]; intros m Hex; simpl.
  - by apply Exists_nil in Hex.
  - destruct (artists t) as [|primary others] eqn:Ea; [done|].
    apply IH. apply Exists_cons in Hex as [Ht|Hrest]; [congruence|done].
Qed.

(** X6: [analyze_library_by_artist] raises when some track has no artist;
    otherwise it returns a map whose keys are the primary artists' names in
    first-seen order, each bucket holding, in track order, the tracks whose
    primary artist has that name: the buckets are non-empty and every track
    is in the bucket of its primary artist. *)
Theorem artist_grouping (tracks : list track) :
  (Exists (fun t => artists t = []) tracks ->
   analyze_library_by_artist tracks = Raised)
  /\ (Forall (fun t => artists t <> []) tracks ->
      exists artist_map,
        analyze_library_by_artist tracks = Returned artist_map
        /\ keys artist_map
           = first_by (fun n : string => n) (omap primary_name tracks)
        /\ (forall name,
              default [] (dict_get name artist_map)
              = filter (fun t => primary_name t = Some name) tracks)
        /\ Forall (fun kv => kv.2 <> []) artist_map).
Proof.
  split; [apply artist_loop_raises|]. intros Hall.
  unfold analyze_library_by_artist. rewrite artist_loop_spec by done.
  eexists. split; [reflexivity|].
  assert (Hname : forall t, t ∈ tracks ->
            primary_name t = Some (default "" (primary_name t))).
  { intros t Ht. rewrite Forall_forall in Hall. specialize (Hall t Ht).
    unfold primary_name. by destruct (artists t). }
  split; [|split].
  - rewrite group_keys. simpl. rewrite filter_all by (intros; set_solver).
    f_equal. clear Hall. induction tracks as [|t rest IH]; [done|].
    pose proof (Hname t ltac:(by left)) as E. simpl.
    destruct (primary_name t) as [n|]; [|done]. simpl. f_equal.
    apply IH. intros t' Ht'. apply Hname. by right.
  - intros name. rewrite group_get. simpl. apply filter_ext_in.
    intros t Ht. pose proof (Hname t Ht) as E.
    destruct (primary_name t) as [n|]; [|done]. simpl.
    split; [by intros ->|by intros [= ->]].
  - by apply group_nonempty.
Qed.

Lemma artist_grouping_witness :
  exists artist_map,
    analyze_library_by_artist
      [Sample.song_1994; Sample.local_file; Sample.song_2005]
    = Returned artist_map
    /\ keys artist_map = ["Artist One"; "Artist Two"].
Proof.
  destruct (artist_grouping
              [Sample.song_1994; Sample.local_file; Sample.song_2005])
    as (_ & H).
  destruct H as (m & E & Hk & _).
  - repeat constructor; discriminate.
  - exists m. split; [exact E|]. rewrite Hk. reflexivity.
Defined.

End Grouping.

Section GenreBuckets.
Import Py LibraryAnalyzer.

Lemma append_to_genres_get t genres m g t' :
  t' ∈ default [] (dict_get g (append_to_genres t genres m))
  <-> t' ∈ default [] (dict_get g m) \/ (t' = t /\ g ∈ genres).
Proof.
  unfold append_to_genres. revert m.
  induction genres as [|g0 genres IH]; intros m; simpl.
  - split; [by left|]. intros [?|[_ H]]; [done|]. by apply elem_of_nil in H.
  - rewrite IH, dict_get_dict_append, elem_of_cons.
    destruct (decide (g = g0)) as [->|Hne]; simpl.
    + rewrite elem_of_app, list_elem_of_singleton. tauto.
    + split; [tauto|]. intros [?|[? [?|?]]]; tauto.
Qed.

Lemma genre_loop_buckets sp tracks m lookups :
  Forall (fun t => artists t <> []) tracks ->
  exists genre_map,
    (genre_loop sp tracks m lookups).1 = Returned genre_map
    /\ forall g t,
         t ∈ default [] (dict_get g genre_map)
         <-> t ∈ default [] (dict_get g m)
             \/ (t ∈ tracks /\ g ∈ genres_of sp t).
Proof.
  revert m lookups.
  induction tracks as [|t0 rest IH]; intros m lookups Hall; simpl.
  - exists m. split; [done|]. intros g t. split; [by left|].
    intros [?|[H _]]; [done|]. by apply elem_of_nil in H.
  - apply Forall_cons in Hall as [Ht Hrest].
    assert (Hstep : forall m' genres,
      genres_of sp t0 = genres ->
      (forall g t, t ∈ default [] (dict_get g m')
                   <-> t ∈ default [] (dict_get g m)
                       \/ (t = t0 /\ g ∈ genres)) ->
      forall lookups',
      exists genre_map,
        (genre_loop sp rest m' lookups').1 = Returned genre_map
        /\ forall g t,
             t ∈ default [] (dict_get g genre_map)
             <-> t ∈ default [] (dict_get g m)
                 \/ (t ∈ t0 :: rest /\ g ∈ genres_of sp t)).
    { intros m' genres Hg Hm' lookups'.
      destruct (IH m' lookups' Hrest) as (gm & E & Hgm).
      exists gm. split; [done|]. intros g t.
      rewrite Hgm, Hm', elem_of_cons. split.
      - intros [[?|[-> ?]]|[? ?]]; [by left|right|right].
        + split; [by left|]. by rewrite Hg.
        + split; [by right|done].
      - intros [?|[[->|?] ?]]; [by left; left| |by right].
        left. right. split; [done|]. by rewrite <- Hg. }
    unfold genres_of in Hstep.
    destruct (artists t0) as [|primary others]; [done|].
    destruct (artist sp (artist_id primary)) as [genres|].
    + eapply Hstep; [reflexivity|]. intros g t.
      apply append_to_genres_get.
    + eapply Hstep; [reflexivity|]. intros g t.
      rewrite dict_get_dict_append.
      destruct (decide (g = "Unknown")) as [->|Hne]; simpl.
      * rewrite elem_of_app, !list_elem_of_singleton. tauto.
      * rewrite list_elem_of_singleton. tauto.
Qed.

(** X7: for tracks that all have a primary artist,
    [analyze_library_by_genre] returns a map in which a track is in the
    bucket of a genre exactly when that genre is one of its primary
    artist's genres, or the genre is "Unknown" and the artist has no genres
    or the lookup raised; a failed lookup never aborts the run, and every
    track ends up in at least one bucket. *)
Theorem genre_bucket_membership sp tracks :
  Forall (fun t => artists t <> []) tracks ->
  exists genre_map,
    (analyze_library_by_genre sp tracks).1 = Returned genre_map
    /\ (forall g t,
          t ∈ default [] (dict_get g genre_map)
          <-> t ∈ tracks /\ g ∈ genres_of sp t)
    /\ (forall t, t ∈ tracks ->
          exists g, t ∈ default [] (dict_get g genre_map)).
Proof.
  intros Hall. unfold analyze_library_by_genre.
  destruct (genre_loop_buckets sp tracks [] [] Hall) as (gm & E & Hgm).
  exists gm. split; [done|].
  assert (Hm : forall g t,
            t ∈ default [] (dict_get g gm)
            <-> t ∈ tracks /\ g ∈ genres_of sp t).
  { intros g t. rewrite Hgm. simpl. split; [|by right].
    intros [H|?]; [by apply elem_of_nil in H|done]. }
  split; [done|]. intros t Ht.
  rewrite Forall_forall in Hall. specialize (Hall t Ht).
  assert (Hg : exists g, g ∈ genres_of sp t).
  { unfold genres_of. destruct (artists t) as [|primary others]; [done|].
    destruct (artist sp (artist_id primary)) as [[|g gs]|]; simpl.
    - exists "Unknown". by left.
    - exists g. by left.
    - exists "Unknown". by left. }
  destruct Hg as [g Hg]. exists g. by apply Hm.
Qed.

Lemma genre_bucket_membership_witness :
  exists genre_map,
    (analyze_library_by_genre Sample.catalog
       [Sample.song_1994; Sample.local_file]).1 = Returned genre_map
    /\ default [] (dict_get "shoegaze" genre_map) = [Sample.song_1994]
    /\ default [] (dict_get "Unknown" genre_map) = [Sample.local_file].
Proof.
  destruct (genre_bucket_membership Sample.catalog
              [Sample.song_1994; Sample.local_file]) as (gm & E & _).
  - repeat constructor; discriminate.
  - exists gm. split; [exact E|].
    vm_compute in E. injection E as <-. vm_compute. split; reflexivity.
Defined.

End GenreBuckets.

Section MoodBuckets.
Import Py LibraryAnalyzer.





End MoodBuckets.

Section YearPlaylists.
Import Py PlaylistManager LibraryAnalyzer.

Lemma attempted_none_skipped {K} (skip : K -> list track -> bool)
  (items : dict K (list track)) :
  Forall (fun kv => skip kv.1 kv.2 = false) items ->
  attempted skip items = items.
Proof.
  unfold attempted. induction 1 as [|kv items Hkv _ IH]; [done|].
  simpl. rewrite Hkv. simpl. f_equal. exact IH.
Qed.

Lemma first_by_id_elem {A} `{EqDecision A} (l : list A) (x : A) :
  x ∈ first_by (fun y => y) l <-> x ∈ l.
Proof.
  pose proof (first_by_keys_subset (fun y : A => y) l x) as H.
  by rewrite !list_fmap_id in H.
Qed.

(** X9: [analyze_library_by_year] files the tracks under their release
    year, a track without one under the key [None], with the keys in
    first-seen order; [create_year_playlists] on that map skips nothing (the
    "Unknown" guard never applies) and creates one playlist per key, so the
    tracks without a release year get a playlist named "<prefix> - None". *)
Theorem year_playlists_from_analysis sp tracks prefix public tr :
  let year_map := analyze_library_by_year tracks in
  keys year_map = first_by (fun y : year_key => y) (year_of <$> tracks)
  /\ (forall year,
        default [] (dict_get year year_map)
        = filter (fun t => year_of t = year) tracks)
  /\ exists evs,
       (create_year_playlists sp year_map prefix public tr).2 = tr ++ evs
       /\ (creation_calls evs).*1
          = year_playlist_name prefix <$> keys year_map
       /\ ((exists t, t ∈ tracks /\ release_year t = None) ->
           prefix +:+ " - None" ∈ (creation_calls evs).*1).
Proof.
  intros year_map.
  assert (Hkeys : keys year_map
                  = first_by (fun y : year_key => y) (year_of <$> tracks)).
  { unfold year_map, analyze_library_by_year. rewrite group_keys. simpl.
    by rewrite filter_all by (intros; apply not_elem_of_nil). }
  split; [done|]. split.
  { intros year. unfold year_map, analyze_library_by_year.
    by rewrite group_get. }
  unfold create_year_playlists.
  destruct (create_loop_spec year_skip
              (fun year _ => year_playlist_name prefix year)
              year_description sp public year_map [] tr)
    as (evs & E & Hc & _).
  assert (Hin : forall k, k ∈ keys year_map -> exists t,
                  t ∈ tracks /\ k = year_of t).
  { intros k Hk. rewrite Hkeys in Hk.
    apply (proj1 (first_by_id_elem _ _)) in Hk.
    apply list_elem_of_fmap in Hk as (t & -> & Ht). by exists t. }
  rewrite attempted_none_skipped in Hc.
  - exists evs. split; [done|].
    assert (Hn : (creation_calls evs).*1
                 = year_playlist_name prefix <$> keys year_map).
    { rewrite Hc. unfold keys. by rewrite <- !list_fmap_compose. }
    split; [done|]. intros (t & Ht & Hy). rewrite Hn, Hkeys.
    apply list_elem_of_fmap. exists YearNone. split; [done|].
    apply (proj2 (first_by_id_elem _ _)). apply list_elem_of_fmap.
    exists t. split; [|done]. unfold year_of. by rewrite Hy.
  - apply Forall_forall. intros [k ts] Hkv. unfold year_skip. simpl.
    assert (Hne : ts <> []).
    { assert (Hg : Forall (fun kv : year_key * list track => kv.2 <> [])
                     year_map) by (by apply group_nonempty).
      rewrite Forall_forall in Hg. by apply (Hg (k, ts)). }
    destruct (Hin k) as (t & _ & ->).
    { apply list_elem_of_fmap. by exists (k, ts). }
    destruct ts; [done|]. simpl. apply bool_decide_eq_false.
    unfold year_of. by destruct (release_year t).
Qed.

Lemma year_playlists_from_analysis_witness :
  exists evs,
    (create_year_playlists Sample.all_ok
       (analyze_library_by_year [Sample.song_1994; Sample.undated])
       "SpotifySort" false []).2 = [] ++ evs
    /\ "SpotifySort - None" ∈ (creation_calls evs).*1.
Proof.
  destruct (year_playlists_from_analysis Sample.all_ok
              [Sample.song_1994; Sample.undated] "SpotifySort" false [])
    as (_ & _ & evs & E & _ & Hn).
  exists evs. split; [exact E|]. apply Hn. exists Sample.undated.
  split; [|reflexivity]. right. left.
Defined.

End YearPlaylists.

(** * Further properties of the readers *)

Section FetchFailure.
Import Py LibraryAnalyzer.
Arguments limit_reached : simpl never.

Lemma limit_reached_shorter limit (longer shorter : list track) :
  limit_reached limit longer = false ->
  length shorter <= length longer ->
  limit_reached limit shorter = false.
Proof.
  unfold limit_reached. destruct limit as [l|]; [|done].
  destruct (truthy_int (Some l)); [|done]. simpl.
  rewrite !Z.leb_gt. lia.
Qed.

Lemma append_items_below limit acc page_items :
  limit_reached limit (acc ++ page_items) = false ->
  append_items limit acc page_items = acc ++ page_items.
Proof.
  revert acc. induction page_items as [|item rest IH]; intros acc Hlim.
  - by rewrite app_nil_r.
  - simpl. rewrite (limit_reached_shorter limit (acc ++ item :: rest))
      by (done || (rewrite !length_app; simpl; lia)).
    rewrite IH; rewrite <- app_assoc; done.
Qed.

Lemma saved_tracks_loop_raises limit good rest acc calls :
  passed_pages good ->
  limit_reached limit (acc ++ concat (items <$> good)) = false ->
  saved_tracks_loop limit ((Returned <$> good) ++ Raised :: rest) acc calls
  = (Raised, calls + length good + 1).
Proof.
  revert acc calls. induction good as [|p good IH]; intros acc calls Hp Hlim.
  - simpl. f_equal. lia.
  - apply Forall_cons in Hp as [[Hne Hnext] Hp]. simpl in *.
    rewrite app_assoc in Hlim.
    rewrite append_items_below
      by (apply (limit_reached_shorter _ _ _ Hlim);
          rewrite !length_app; lia).
    rewrite (limit_reached_shorter _ _ (acc ++ items p) Hlim)
      by (rewrite !length_app; lia).
    replace (negb (truthy_list (items p))) with false
      by (by destruct (items p)).
    rewrite Hnext. simpl. rewrite IH by done. f_equal. lia.
Qed.

(** X10: when a page fetch of [get_saved_tracks] raises before the limit is
    reached, after pages that each had items and a next link, the method
    raises with it: the tracks of the pages fetched so far are not
    returned, and no fetch is issued after the failing one. *)
Theorem saved_tracks_fetch_failure sp limit good rest :
  saved_pages sp = (Returned <$> good) ++ Raised :: rest ->
  passed_pages good ->
  (forall l, limit = Some l ->
     l = 0%Z \/ (Z.of_nat (length (concat (items <$> good))) < l)%Z) ->
  get_saved_tracks sp limit = (Raised, S (length good)).
Proof.
  intros Hpages Hgood Hlim. unfold get_saved_tracks. rewrite Hpages.
  rewrite saved_tracks_loop_raises; [f_equal; lia|done|].
  simpl. unfold limit_reached. destruct limit as [l|]; [|done].
  destruct (Hlim l eq_refl) as [->|Hl]; [done|].
  apply andb_false_iff. right. apply Z.leb_gt. lia.
Qed.

Lemma saved_tracks_fetch_failure_witness :
  get_saved_tracks
    (Client [Returned (Page [Sample.song_1994] true); Raised]
       (fun _ => []) (fun _ => Raised) (fun _ => []))
    (Some 5%Z)
  = (Raised, 2).
Proof.
  apply (saved_tracks_fetch_failure _ _ [Page [Sample.song_1994] true] []).
  - reflexivity.
  - repeat constructor. discriminate.
  - intros l [= <-]. right. simpl. lia.
Defined.

Lemma playlist_tracks_loop_spec
  (responses : list (outcome (page (option track)))) acc :
  well_chained responses ->
  playlist_tracks_loop responses acc
  = Returned (acc ++ visible_items responses)
  /\ visible_items responses
     = concat ((fun r => match r with
                         | Returned p => omap (fun o => o) (items p)
                         | Raised => []
                         end) <$> responses).
Proof.
  revert acc. induction responses as [|[p|] later IH]; intros acc Hwf.
  - simpl. by rewrite app_nil_r.
  - destruct Hwf as (Hne & Hnext & Hwf). simpl.
    replace (negb (truthy_list (items p))) with false
      by (by destruct (items p)).
    rewrite Hnext. destruct later as [|r later'].
    + simpl. by rewrite !app_nil_r.
    + cbn [truthy_list negb]. cbv iota.
      destruct (IH (acc ++ omap (fun o => o) (items p)) Hwf) as [-> Hv].
      split; [by rewrite <- app_assoc|]. by rewrite Hv.
  - done.
Qed.

(** X11: for a regular playlist whose pages are all served (each with
    items, the next link set on all but the last), [get_playlist_tracks]
    returns the tracks of all pages in page order, skipping the items
    without a track and keeping repeated tracks, and
    [get_tracks_from_playlists] on that playlist alone returns the same
    list with every repeated track identity dropped after its first
    occurrence. *)
Theorem playlist_tracks_complete sp playlist_id :
  playlist_id <> "liked_songs" ->
  well_chained (playlist_pages sp playlist_id) ->
  let all_tracks :=
    concat ((fun r => match r with
                      | Returned p => omap (fun o => o) (items p)
                      | Raised => []
                      end) <$> playlist_pages sp playlist_id) in
  get_playlist_tracks sp playlist_id = Returned all_tracks
  /\ get_tracks_from_playlists sp [playlist_id]
     = first_by track_id all_tracks.
Proof.
  intros Hid Hwf all_tracks.
  destruct (playlist_tracks_loop_spec (playlist_pages sp playlist_id) [] Hwf)
    as [E Hv].
  split.
  - unfold get_playlist_tracks. rewrite E. simpl. by rewrite Hv.
  - unfold get_tracks_from_playlists.
    rewrite (playlists_loop_spec sp [playlist_id] [] [] ∅).
    + simpl. rewrite app_nil_r. unfold source_tracks.
      apply String.eqb_neq in Hid. rewrite Hid. by rewrite Hv.
    + split; [done|]. intros i. simpl. split; intros H.
      * by apply elem_of_empty in H.
      * by apply elem_of_nil in H.
Qed.

Lemma playlist_tracks_complete_witness :
  get_playlist_tracks Sample.catalog "mix"
  = Returned [Sample.song_2005; Sample.undated; Sample.undated;
              Sample.song_1994]
  /\ get_tracks_from_playlists Sample.catalog ["mix"]
     = [Sample.song_2005; Sample.undated; Sample.song_1994].
Proof.
  destruct (playlist_tracks_complete Sample.catalog "mix") as [E1 E2].
  - discriminate.
  - vm_compute. repeat split; discriminate.
  - split; [exact E1|]. rewrite E2. vm_compute. reflexivity.
Defined.

Lemma playlist_tracks_loop_raises
  (good : list (page (option track))) rest acc :
  Forall (fun p => items p <> [] /\ next p = true) good ->
  playlist_tracks_loop ((Returned <$> good) ++ Raised :: rest) acc = Raised
  /\ visible_items ((Returned <$> good) ++ Raised :: rest)
     = concat ((fun p => omap (fun o => o) (items p)) <$> good).
Proof.
  revert acc. induction good as [|p good IH]; intros acc Hgood; [done|].
  apply Forall_cons in Hgood as [[Hne Hnext] Hgood]. simpl.
  replace (negb (truthy_list (items p))) with false
    by (by destruct (items p)).
  rewrite Hnext. simpl.
  destruct (IH (acc ++ omap (fun o => o) (items p)) Hgood) as [E Hv].
  split; [exact E|]. f_equal. exact Hv.
Qed.

(** X12: when a page fetch of a regular playlist raises after pages that
    each had items and a next link, [get_playlist_tracks] raises and returns
    nothing, whereas [get_tracks_from_playlists] catches the failure and
    keeps the tracks of the pages fetched before it. *)
Theorem playlist_fetch_failure sp playlist_id good rest :
  playlist_id <> "liked_songs" ->
  playlist_pages sp playlist_id = (Returned <$> good) ++ Raised :: rest ->
  Forall (fun p => items p <> [] /\ next p = true) good ->
  get_playlist_tracks sp playlist_id = Raised
  /\ get_tracks_from_playlists sp [playlist_id]
     = first_by track_id
         (concat ((fun p => omap (fun o => o) (items p)) <$> good)).
Proof.
  intros Hid Hpages Hgood.
  destruct (playlist_tracks_loop_raises good rest [] Hgood) as [E Hv].
  split.
  - unfold get_playlist_tracks. by rewrite Hpages.
  - unfold get_tracks_from_playlists.
    rewrite (playlists_loop_spec sp [playlist_id] [] [] ∅).
    + simpl. rewrite app_nil_r. unfold source_tracks.
      apply String.eqb_neq in Hid. rewrite Hid, Hpages. by rewrite Hv.
    + split; [done|]. intros i. simpl. split; intros H.
      * by apply elem_of_empty in H.
      * by apply elem_of_nil in H.
Qed.

Lemma playlist_fetch_failure_witness :
  get_playlist_tracks Sample.catalog "broken" = Raised
  /\ get_tracks_from_playlists Sample.catalog ["broken"]
     = [Sample.local_file].
Proof.
  destruct (playlist_fetch_failure Sample.catalog "broken"
              [Page [Some Sample.local_file] true] []) as [E1 E2].
  - discriminate.
  - reflexivity.
  - repeat constructor. discriminate.
  - split; [exact E1|]. rewrite E2. reflexivity.
Defined.

End FetchFailure.

Section DedupComposition.
Import Py LibraryAnalyzer.

Lemma first_by_fixed {A K} `{EqDecision K} (key : A -> K) (l : list A) :
  NoDup (key <$> l) -> first_by key l = l.
Proof.
  induction l as [|x l IH]; [done|]. rewrite fmap_cons, NoDup_cons.
  intros [Hx Hl]. simpl. rewrite IH by done. f_equal.
  apply filter_all. intros y Hy E. apply Hx. rewrite <- E.
  by apply list_elem_of_fmap_2.
Qed.

Lemma first_by_merge {A K} `{EqDecision K} (key : A -> K) (l1 l2 : list A) :
  first_by key (first_by key l1 ++ first_by key l2) = first_by key (l1 ++ l2).
Proof.
  rewrite !first_by_app.
  rewrite !(first_by_fixed key (first_by key _)) by apply first_by_NoDup.
  f_equal. apply list_filter_iff. intros y.
  by rewrite first_by_keys_subset.
Qed.

Lemma first_by_nothing_new {A K} `{EqDecision K} (key : A -> K)
  (l1 l2 : list A) :
  (forall y, y ∈ l2 -> key y ∈ key <$> l1) ->
  first_by key (l1 ++ l2) = first_by key l1.
Proof.
  intros Hsub. rewrite first_by_app.
  assert (E : filter (fun y => key y ∉ key <$> l1) (first_by key l2) = []).
  { assert (Hall : forall y, y ∈ first_by key l2 -> key y ∈ key <$> l1).
    { intros y Hy.
      assert (Hk : key y ∈ key <$> first_by key l2)
        by (by apply list_elem_of_fmap_2).
      apply (proj1 (first_by_keys_subset key l2 (key y))) in Hk.
      apply list_elem_of_fmap in Hk as (z & -> & Hz). by apply Hsub. }
    induction (first_by key l2) as [|y l IH]; [done|].
    rewrite filter_cons_False.
    - apply IH. intros z Hz. apply Hall. by right.
    - intros Hn. apply Hn, Hall. by left. }
  by rewrite E, app_nil_r.
Qed.

Lemma get_tracks_from_playlists_eq sp playlist_ids :
  get_tracks_from_playlists sp playlist_ids
  = first_by track_id (concat (source_tracks sp <$> playlist_ids)).
Proof.
  unfold get_tracks_from_playlists.
  rewrite (playlists_loop_spec sp playlist_ids [] [] ∅); [done|].
  split; [done|]. intros i. simpl. split; intros H.
  - by apply elem_of_empty in H.
  - by apply elem_of_nil in H.
Qed.

(** X13: deduplicating the sources of two lists together gives the same as
    deduplicating each list and then the two results in that order; and
    naming again, later in the list, sources that were already named adds
    nothing to the output. *)
Theorem dedup_composes sp ids1 ids2 :
  get_tracks_from_playlists sp (ids1 ++ ids2)
  = first_by track_id (get_tracks_from_playlists sp ids1
                         ++ get_tracks_from_playlists sp ids2)
  /\ ((forall i, i ∈ ids2 -> i ∈ ids1) ->
      get_tracks_from_playlists sp (ids1 ++ ids2)
      = get_tracks_from_playlists sp ids1).
Proof.
  rewrite !get_tracks_from_playlists_eq, fmap_app, concat_app. split.
  - by rewrite first_by_merge.
  - intros Hsub. apply first_by_nothing_new. intros t Ht.
    apply list_elem_of_fmap_2.
    apply list_elem_of_In, in_concat in Ht as (src & Hsrc & Ht).
    apply list_elem_of_In, list_elem_of_fmap in Hsrc as (i & -> & Hi).
    apply list_elem_of_In, in_concat. exists (source_tracks sp i).
    split; [|done]. apply list_elem_of_In, list_elem_of_fmap_2. by apply Hsub.
Qed.

Lemma dedup_composes_witness :
  get_tracks_from_playlists Sample.catalog
    (["mix"; "liked_songs"] ++ ["liked_songs"; "mix"])
  = get_tracks_from_playlists Sample.catalog ["mix"; "liked_songs"].
Proof.
  destruct (dedup_composes Sample.catalog ["mix"; "liked_songs"]
              ["liked_songs"; "mix"]) as [_ H].
  apply H. intros i Hi.
  apply elem_of_cons in Hi as [->|Hi]; [right; left|].
  apply elem_of_cons in Hi as [->|Hi]; [left|]. by apply elem_of_nil in Hi.
Defined.

End DedupComposition.

(** * Further properties of the filter *)

Section FilterMore.
Import Py LibraryAnalyzer.

Lemma List_filter_sublist {A} (f : A -> bool) (l : list A) :
  List.filter f l `sublist_of` l.
Proof.
  induction l as [|x l IH]; simpl; [done|].
  destruct (f x); [by apply sublist_skip|by apply sublist_cons].
Qed.

Lemma List_filter_none {A} (f : A -> bool) (l : list A) :
  (forall x, f x = false) -> List.filter f l = [].
Proof. intros Hf. induction l as [|x l IH]; simpl; [done|]. by rewrite Hf. Qed.

(** X14: [filter_tracks] only ever selects: whatever predicates are
    supplied, its output is the input with some tracks left out, the rest
    in their original order, and no track added or repeated. *)
Theorem filter_tracks_selects
  sp tracks genres mood year_from year_to names :
  filter_tracks sp tracks genres mood year_from year_to names
  `sublist_of` tracks.
Proof.
  unfold filter_tracks.
  set (by_year := if truthy_int year_from || truthy_int year_to
                  then List.filter (year_pass year_from year_to) tracks
                  else tracks).
  set (by_artist := match names with
                    | Some l => if truthy_list l
                                then List.filter (artist_pass (strip_lower l))
                                       by_year
                                else by_year
                    | None => by_year
                    end).
  set (by_genre := match genres with
                   | Some l => if truthy_list l
                               then List.filter (genre_pass sp (strip_lower l))
                                      by_artist
                               else by_artist
                   | None => by_artist
                   end).
  assert (H1 : by_year `sublist_of` tracks).
  { unfold by_year. destruct (_ || _); [apply List_filter_sublist|done]. }
  assert (H2 : by_artist `sublist_of` by_year).
  { unfold by_artist. destruct names as [l|]; [|done].
    destruct (truthy_list l); [apply List_filter_sublist|done]. }
  assert (H3 : by_genre `sublist_of` by_artist).
  { unfold by_genre. destruct genres as [l|]; [|done].
    destruct (truthy_list l); [apply List_filter_sublist|done]. }
  etrans; [|exact H1]. etrans; [|exact H2]. etrans; [|exact H3].
  destruct mood as [m|]; [|done]. destruct (truthy_str (Some m)); [|done].
  apply List_filter_sublist.
Qed.

(** X15: with no predicate supplied, or only empty ones (empty lists, the
    empty mood string, bounds of 0), [filter_tracks] returns its input
    unchanged. *)
Theorem filter_tracks_without_predicates
  sp tracks genres mood year_from year_to names :
  truthy_int year_from = false -> truthy_int year_to = false ->
  names = None \/ names = Some [] ->
  genres = None \/ genres = Some [] ->
  truthy_str mood = false ->
  filter_tracks sp tracks genres mood year_from year_to names = tracks.
Proof.
  intros Hf Ht Hn Hg Hm. unfold filter_tracks. rewrite Hf, Ht. simpl.
  assert (E1 : match names with
               | Some l => if truthy_list l
                           then List.filter (artist_pass (strip_lower l)) tracks
                           else tracks
               | None => tracks
               end = tracks) by (by destruct Hn as [->| ->]).
  rewrite E1.
  assert (E2 : match genres with
               | Some l => if truthy_list l
                           then List.filter (genre_pass sp (strip_lower l))
                                  tracks
                           else tracks
               | None => tracks
               end = tracks) by (by destruct Hg as [->| ->]).
  rewrite E2. destruct mood as [m|]; [|done]. by rewrite Hm.
Qed.

Lemma filter_tracks_without_predicates_witness :
  filter_tracks Sample.catalog [Sample.song_1994; Sample.undated]
    (Some []) (Some "") (Some 0%Z) None None
  = [Sample.song_1994; Sample.undated].
Proof.
  apply filter_tracks_without_predicates;
    (reflexivity || (by left) || (by right)).
Defined.

Lemma strip_lower_blank (l : list string) :
  Forall (fun x => strip x = "") l -> strip_lower l = [].
Proof.
  unfold strip_lower. induction 1 as [|x l Hx _ IH]; [done|].
  simpl. rewrite Hx. simpl. exact IH.
Qed.

Lemma filter_by_mood_nil sp m : filter_by_mood sp m [] = [].
Proof. reflexivity. Qed.

(** X16: when a non-empty list of artist names, or of genres, is supplied
    whose entries are all blank (empty or only white space), the filter
    does not ignore it: it rejects every track. *)
Theorem blank_names_reject_everything
  sp tracks genres mood year_from year_to names l :
  l <> [] ->
  Forall (fun x => strip x = "") l ->
  names = Some l \/ genres = Some l ->
  filter_tracks sp tracks genres mood year_from year_to names = [].
Proof.
  intros Hne Hblank Hl. pose proof (strip_lower_blank l Hblank) as Hs.
  assert (Htrue : truthy_list l = true) by (by destruct l).
  unfold filter_tracks.
  set (by_year := if truthy_int year_from || truthy_int year_to
                  then List.filter (year_pass year_from year_to) tracks
                  else tracks).
  assert (Hmood : match mood with
                  | Some m => if truthy_str mood then filter_by_mood sp m []
                              else []
                  | None => []
                  end = []).
  { destruct mood as [m|]; [|done]. by destruct (truthy_str (Some m)). }
  destruct Hl as [-> | ->]; rewrite Htrue, Hs.
  - rewrite (List_filter_none (artist_pass [])).
    + destruct genres as [g|]; [|done]. by destruct (truthy_list g).
    + intros t. unfold artist_pass.
      induction (artist_name <$> artists t) as [|n ns IH]; [done|]. done.
  - rewrite (List_filter_none (genre_pass sp [])); [done|].
    intros t. unfold genre_pass. destruct (artists t); [done|].
    by destruct (artist sp _).
Qed.

Lemma blank_names_reject_everything_witness :
  filter_tracks Sample.catalog [Sample.song_1994; Sample.undated]
    None None None None (Some [" "; ""]) = [].
Proof.
  apply (blank_names_reject_everything _ _ _ _ _ _ _ [" "; ""]).
  - discriminate.
  - repeat constructor.
  - by left.
Defined.

(** X17: the year range of the filter is inclusive at both ends: with a
    bound supplied (and not 0) and no other predicate, a track passes
    exactly when it has a release year (not 0) that is at least
    [year_from], where that is supplied and not 0, and at most [year_to],
    where that is. *)
Theorem year_range_inclusive sp tracks year_from year_to t :
  truthy_int year_from || truthy_int year_to = true ->
  t ∈ filter_tracks sp tracks None None year_from year_to None
  <-> t ∈ tracks
      /\ exists y, release_year t = Some y /\ y <> 0%Z
                   /\ (forall a, year_from = Some a -> a <> 0%Z -> (a <= y)%Z)
                   /\ (forall b, year_to = Some b -> b <> 0%Z -> (y <= b)%Z).
Proof.
  intros Hb. unfold filter_tracks. rewrite Hb.
  rewrite list_elem_of_In, filter_In, <- list_elem_of_In.
  unfold year_pass, from_ok, to_ok, truthy_int.
  split.
  - intros [Hin Hp]. split; [done|].
    destruct (release_year t) as [y|]; [|done]. exists y.
    apply andb_true_iff in Hp as [Hp Hto].
    apply andb_true_iff in Hp as [Hy Hfrom].
    split; [done|]. split; [|split].
    + intros ->. done.
    + intros a -> Ha. destruct (Z.eqb_spec a 0); [done|].
      simpl in Hfrom. by apply Z.leb_le.
    + intros b -> Hb'. destruct (Z.eqb_spec b 0); [done|].
      simpl in Hto. by apply Z.leb_le.
  - intros [Hin (y & -> & Hy & Hfrom & Hto)]. split; [done|].
    destruct (Z.eqb_spec y 0); [done|]. simpl.
    apply andb_true_iff. split.
    + destruct year_from as [a|]; [|done].
      destruct (Z.eqb_spec a 0); [done|]. simpl. apply Z.leb_le.
      by apply Hfrom.
    + destruct year_to as [b|]; [|done].
      destruct (Z.eqb_spec b 0); [done|]. simpl. apply Z.leb_le.
      by apply Hto.
Qed.

Lemma year_range_inclusive_witness :
  Sample.song_1994
    ∈ filter_tracks Sample.catalog [Sample.song_1994; Sample.song_2005]
        None None (Some 1994%Z) (Some 1994%Z) None.
Proof.
  apply year_range_inclusive; [reflexivity|].
  split; [by left|]. exists 1994%Z. split; [reflexivity|].
  split; [discriminate|]. split; intros ? [= <-] _; lia.
Defined.

End FilterMore.

Section AudioFeatures.
Import Py LibraryAnalyzer.

Lemma omap_concat {A B} (f : A -> option B) (ls : list (list A)) :
  omap f (concat ls) = concat ((fun l : list A => omap f l) <$> ls).
Proof.
  induction ls as [|l ls IH]; [done|].
  simpl. rewrite omap_app. f_equal. exact IH.
Qed.

Lemma omap_id_fmap {A B} (g : A -> option B) (l : list A) :
  omap (fun f => f) (g <$> l) = omap g l.
Proof.
  induction l as [|x l IH]; [done|].
  rewrite fmap_cons. simpl. destruct (g x); simpl; [f_equal|]; exact IH.
Qed.

(** X18: when the service resolves audio features id by id, the batching
    of [get_audio_features] in requests of 100 ids is invisible: the result
    lists the features of the ids that resolve, in the order of the ids,
    and the unresolved ids are dropped without error. *)
Theorem audio_features_batching sp (g : string -> option features)
  track_ids :
  (forall ids, audio_features sp ids = g <$> ids) ->
  get_audio_features sp track_ids = omap g track_ids.
Proof.
  intros Hg. unfold get_audio_features.
  destruct track_ids as [|i ids]; [done|]. simpl negb. cbv iota.
  set (l := i :: ids).
  transitivity (concat ((fun b : list string => omap g b)
                          <$> ((fun k => slice l k 100)
                                 <$> range_step (length l) 100))).
  - rewrite <- list_fmap_compose. f_equal. apply list_fmap_ext.
    intros _ k _. simpl. by rewrite Hg, omap_id_fmap.
  - rewrite <- omap_concat. f_equal. unfold range_step.
    rewrite concat_slices. apply take_ge.
    pose proof (Nat.div_mod_eq (length l + 100 - 1) 100) as E.
    pose proof (Nat.mod_upper_bound (length l + 100 - 1) 100). lia.
Qed.

Lemma audio_features_batching_witness :
  get_audio_features Sample.catalog ["t1"; "t4"; "t3"]
  = omap Sample.sample_features ["t1"; "t4"; "t3"].
Proof.
  apply audio_features_batching. intros ids. reflexivity.
Defined.

End AudioFeatures.

Section ArtistCaller.
Import Py PlaylistManager.

Lemma List_filter_idem {A} (f : A -> bool) (l : list A) :
  List.filter f (List.filter f l) = List.filter f l.
Proof.
  induction l as [|x l IH]; [done|]. simpl.
  destruct (f x) eqn:E; simpl; [rewrite E; by f_equal|done].
Qed.

(** X19: the command line drops the artists with fewer than [min_tracks]
    tracks before it calls [create_artist_playlists] with the same
    [min_tracks]; that changes nothing: the method creates the same
    playlists and returns the same map as on the unfiltered map. *)
Theorem artist_prefilter_is_harmless
  sp artist_map prefix public min_tracks tr :
  create_artist_playlists sp
    (List.filter (fun kv => (min_tracks <=? Z.of_nat (length kv.2))%Z)
       artist_map) prefix public min_tracks tr
  = create_artist_playlists sp artist_map prefix public min_tracks tr.
Proof.
  unfold create_artist_playlists.
  change (fun kv : string * list track =>
            (min_tracks <=? Z.of_nat (length kv.2))%Z)
    with (enough_tracks min_tracks).
  by rewrite List_filter_idem.
Qed.

End ArtistCaller.

(** * Genre discovery of the web application *)

Section Discovery.
Import Py LibraryAnalyzer WebApp.

Lemma artist_tracks_loop_spec (tracks : list track) m :
  Forall (fun t => artists t <> []) tracks ->
  exists artist_tracks,
    artist_tracks_loop tracks m = Returned artist_tracks
    /\ keys artist_tracks
       = keys m ++ first_by (fun i : string => i)
                     (filter (fun i => i ∉ keys m) (primary_ids tracks)).
Proof.
  revert m. induction tracks as [|t rest IH]; intros m Hall.
  - exists m. simpl. by rewrite app_nil_r.
  - apply Forall_cons in Hall as [Ht Hrest]. simpl.
    unfold primary_ids. simpl. fold (primary_ids rest).
    destruct (artists t) as [|primary others]; [done|]. simpl.
    destruct (IH (dict_append (artist_id primary) t m) Hrest)
      as (at' & -> & Hk).
    exists at'. split; [done|]. rewrite Hk, keys_dict_append.
    destruct (decide (artist_id primary ∈ keys m)) as [Hin|Hnin].
    + by rewrite filter_cons_False by (by intros Hn).
    + rewrite filter_cons_True by done. simpl. rewrite <- app_assoc. simpl.
      do 2 f_equal.
      rewrite <- (first_by_filter (fun i : string => i)
                    (fun i => i <> artist_id primary)).
      f_equal. rewrite list_filter_filter. apply list_filter_iff.
      intros y. rewrite not_elem_of_app, list_elem_of_singleton. tauto.
Qed.

Lemma artist_batches_loop_returns sp_artists artist_tracks batches gc lk :
  (forall b, b ∈ batches -> sp_artists b <> Raised) ->
  exists gc',
    artist_batches_loop sp_artists artist_tracks batches gc lk
    = (Returned gc', lk ++ batches).
Proof.
  revert gc lk. induction batches as [|b bs IH]; intros gc lk Hok; simpl.
  - exists gc. by rewrite app_nil_r.
  - pose proof (Hok b ltac:(by left)) as Hb.
    destruct (sp_artists b) as [data|]; [|done].
    destruct (IH (foldl (count_artist artist_tracks) gc data) (lk ++ [b]))
      as (gc' & ->); [intros b' Hb'; apply Hok; by right|].
    exists gc'. by rewrite <- app_assoc.
Qed.

Lemma artist_batches_loop_fails sp_artists artist_tracks batches gc lk k b :
  batches !! k = Some b ->
  sp_artists b = Raised ->
  (forall j b', j < k -> batches !! j = Some b' -> sp_artists b' <> Raised) ->
  artist_batches_loop sp_artists artist_tracks batches gc lk
  = (Raised, lk ++ take (S k) batches).
Proof.
  revert gc lk k. induction batches as [|b0 bs IH]; intros gc lk k Hk Hb Hok.
  - done.
  - destruct k as [|k]; simpl in *.
    + injection Hk as ->. rewrite Hb. by rewrite take_0.
    + pose proof (Hok 0 b0 ltac:(lia) eq_refl) as H0.
      destruct (sp_artists b0) as [data|]; [|done].
      rewrite (IH _ (lk ++ [b0]) k Hk Hb).
      * by rewrite <- app_assoc.
      * intros j b' Hj Hb'. apply (Hok (S j) b'); [lia|done].
Qed.

Lemma insert_by_count_sorted x l :
  Sorted (fun a b : string * nat => b.2 <= a.2) l ->
  Sorted (fun a b : string * nat => b.2 <= a.2) (insert_by_count x l).
Proof.
  induction l as [|y l IH]; intros Hs; simpl.
  - by repeat constructor.
  - destruct (Nat.leb_spec y.2 x.2).
    + constructor; [done|]. by constructor.
    + apply Sorted_inv in Hs as [Hs Hd]. constructor; [by apply IH|].
      destruct l as [|z l]; simpl.
      * constructor. lia.
      * destruct (z.2 <=? x.2); constructor; [lia|].
        by apply HdRel_inv in Hd.
Qed.

Lemma sort_by_count_sorted l :
  Sorted (fun a b : string * nat => b.2 <= a.2) (sort_by_count l).
Proof.
  unfold sort_by_count. induction l as [|x l IH]; simpl; [constructor|].
  by apply insert_by_count_sorted.
Qed.

(** X20: on tracks that all have a primary artist, the genre discovery of
    the web application analyses at most the first 300 tracks and, unlike
    the genre classification, never asks the service for the same primary
    artist twice: the batches it is to request hold at most 50 ids each and
    together list the distinct primary-artist ids in first-seen order.
    When every request returns, all the batches are requested and the
    genres are reported in descending order of their counts.  When a
    request raises, the handler ends with its error response (its [except]
    branch uses the undefined name [logger]), after that request and
    without asking for any later batch. *)
Theorem discover_genres_lookups sp_artists tracks :
  Forall (fun t => artists t <> []) (take 300 tracks) ->
  let ids := first_by (fun i : string => i)
               (primary_ids (take 300 tracks)) in
  let batches := (fun i => slice ids i 50) <$> range_step (length ids) 50 in
  concat batches = ids
  /\ NoDup (concat batches)
  /\ Forall (fun batch => length batch <= 50) batches
  /\ length batches = (length ids + 49) / 50
  /\ ((forall b, b ∈ batches -> sp_artists b <> Raised) ->
      exists d,
        discover_genres sp_artists tracks = (Returned d, batches)
        /\ tracks_analyzed d = 300 `min` length tracks
        /\ limited d = bool_decide (300 < length tracks)
        /\ Sorted (fun a b : string * nat => b.2 <= a.2) (genres d))
  /\ (forall k b,
        batches !! k = Some b ->
        sp_artists b = Raised ->
        (forall j b', j < k -> batches !! j = Some b' ->
           sp_artists b' <> Raised) ->
        discover_genres sp_artists tracks = (Raised, take (S k) batches)).
Proof.
  intros Hall ids batches.
  assert (Hcat : concat batches = ids).
  { unfold batches, range_step. rewrite concat_slices. apply take_ge.
    pose proof (Nat.div_mod_eq (length ids + 50 - 1) 50) as E.
    pose proof (Nat.mod_upper_bound (length ids + 50 - 1) 50). lia. }
  assert (Hrun : exists artist_tracks,
    discover_genres sp_artists tracks
    = match artist_batches_loop sp_artists artist_tracks batches [] [] with
      | (Returned genre_count, lookups) =>
          (Returned (Discovery (sort_by_count genre_count)
                       (length (take 300 tracks))
                       (300 <? length tracks)), lookups)
      | (Raised, lookups) => (Raised, lookups)
      end).
  { unfold discover_genres.
    set (analysed := if 300 <? length tracks then take 300 tracks
                     else tracks).
    assert (Ha : analysed = take 300 tracks).
    { unfold analysed. destruct (Nat.ltb_spec 300 (length tracks)); [done|].
      by rewrite take_ge by lia. }
    rewrite Ha. clear analysed Ha.
    destruct (artist_tracks_loop_spec (take 300 tracks) [] Hall)
      as (at' & -> & Hk).
    simpl in Hk. rewrite filter_all in Hk by (intros; apply not_elem_of_nil).
    exists at'. fold ids in Hk. by rewrite Hk. }
  destruct Hrun as (at' & Hrun).
  split; [done|].
  split; [rewrite Hcat; apply first_by_id_NoDup|].
  split.
  { unfold batches. apply Forall_fmap, Forall_forall. intros i _. simpl.
    unfold slice. rewrite length_take. lia. }
  split.
  { unfold batches, range_step. rewrite !length_fmap, length_seq.
    f_equal. lia. }
  split.
  - intros Hok.
    destruct (artist_batches_loop_returns sp_artists at' batches [] [] Hok)
      as (gc & E).
    rewrite Hrun, E. eexists. split; [reflexivity|].
    cbn [tracks_analyzed limited genres].
    split; [rewrite length_take; lia|]. split.
    + destruct (Nat.ltb_spec 300 (length tracks)).
      * by rewrite bool_decide_eq_true_2.
      * by rewrite bool_decide_eq_false_2 by lia.
    + apply sort_by_count_sorted.
  - intros k b Hk Hb Hok.
    by rewrite Hrun, (artist_batches_loop_fails _ _ _ _ _ k b Hk Hb Hok).
Qed.

Lemma discover_genres_lookups_witness :
  discover_genres (fun _ => Raised)
    [Sample.song_1994; Sample.song_2005; Sample.local_file]
  = (Raised, [["a1"; "a2"]])
  /\ exists d,
       discover_genres
         (fun batch => Returned ((fun i => (i, ["pop"])) <$> batch))
         [Sample.song_1994; Sample.song_2005; Sample.local_file]
       = (Returned d, [["a1"; "a2"]]).
Proof.
  destruct (discover_genres_lookups (fun _ => Raised)
              [Sample.song_1994; Sample.song_2005; Sample.local_file])
    as (_ & _ & _ & _ & _ & Hfail); [repeat constructor; discriminate|].
  destruct (discover_genres_lookups
              (fun batch => Returned ((fun i => (i, ["pop"])) <$> batch))
              [Sample.song_1994; Sample.song_2005; Sample.local_file])
    as (_ & _ & _ & _ & Hok & _); [repeat constructor; discriminate|].
  split.
  - apply (Hfail 0 ["a1"; "a2"]); [reflexivity|reflexivity|].
    intros j b' Hj. lia.
  - destruct Hok as (d & E & _); [done|]. by exists d.
Defined.

End Discovery.
